(** * A todo list kept as one file per item: [scripts/todos.js]

    The script registers three chat commands with its host framework.
    Each command starts one file-system call of Node's [fs] module and
    answers the user from the callback of that call:

    - [show my todo list]          : [fs.readdir], then one [fs.readFile] per entry;
    - [add <item> to my todo list] : [fs.writeFile] to a file named by [uuid.v4];
    - [<itemID> is done]           : [fs.unlink].

    The development has these layers.

    - [Regex]: the pattern [/([0-9a-f\-]{36}) is done$/i] of the third
      command, run as the regular expression engine runs it.
    - [Path]: [path.join] of Node on a POSIX host.
    - [Fs]: the file-system calls the script relies on.  They belong to
      the host and are modelled on a finite map from paths to nodes, with
      an oracle that can make any call fail; a write that fails after
      its file was opened leaves what was written so far.
    - [Todos]: the handlers of the script, written as the source writes
      them: a handler issues requests that carry their callback, and an
      event loop completes pending requests in an order chosen by a
      schedule.
    - [Commands]: the patterns of the other two commands and the way a
      message is offered to the three listeners.
    - [Boot]: the check, at the start of [module.exports], that the
      storage directory exists.

    Strings are sequences of 8-bit code units. *)

From Stdlib Require Import Ascii String List NArith Bool Lia.
From stdpp Require Import base option list gmap strings fin_maps.

Local Open Scope string_scope.

(** ** Characters and strings *)

Definition code (c : ascii) : N := N_of_ascii c.

Definition in_range (lo hi : N) (c : ascii) : bool :=
  (lo <=? code c)%N && (code c <=? hi)%N.

Fixpoint all_chars (p : ascii -> bool) (s : string) : bool :=
  match s with
  | EmptyString => true
  | String c s' => p c && all_chars p s'
  end.

Fixpoint has_char (c : ascii) (s : string) : bool :=
  match s with
  | EmptyString => false
  | String d s' => Ascii.eqb c d || has_char c s'
  end.

Module Regex.

(** Case folding of the [i] flag.  The engine compares the upper-case
    forms of the pattern character and of the input character; a
    character outside ASCII never folds onto an ASCII one, so on the
    characters of this pattern only the letters [a]-[z] move. *)
Definition canonicalize (c : ascii) : ascii :=
  if in_range 97 122 c then ascii_of_N (code c - 32) else c.

Definition char_eq_i (a c : ascii) : bool :=
  Ascii.eqb (canonicalize a) (canonicalize c).

(** The members of the class [[0-9a-f\-]], ranges written out. *)
Definition id_class : list ascii := list_ascii_of_string "0123456789abcdef-".

(** A character matches the class under [i] when it folds onto the fold
    of some member. *)
Definition id_char (c : ascii) : bool :=
  existsb (fun a => char_eq_i a c) id_class.

(** [[0-9a-f\-]{n}]: exactly [n] characters of the class; the matched
    text and the rest of the input. *)
Fixpoint match_class_rep (n : nat) (s : string) : option (string * string) :=
  match n with
  | O => Some (EmptyString, s)
  | S n' =>
      match s with
      | EmptyString => None
      | String c s' =>
          if id_char c then
            match match_class_rep n' s' with
            | Some (m, r) => Some (String c m, r)
            | None => None
            end
          else None
      end
  end.

(** A literal of the pattern, compared under [i]; the rest of the input. *)
Fixpoint match_literal_i (lit s : string) : option string :=
  match lit with
  | EmptyString => Some s
  | String a lit' =>
      match s with
      | EmptyString => None
      | String c s' => if char_eq_i a c then match_literal_i lit' s' else None
      end
  end.

(** The whole pattern tried at the start of [s]: group 1, the literal
    [" is done"], then [$], the end of the input. *)
Definition match_here (s : string) : option string :=
  match match_class_rep 36 s with
  | Some (id, r1) =>
      match match_literal_i " is done" r1 with
      | Some EmptyString => Some id
      | _ => None
      end
  | None => None
  end.

(** [text.match(/([0-9a-f\-]{36}) is done$/i)]: the pattern is not
    anchored on the left, so the engine tries every start position from
    the left and stops at the first that matches.  The result is
    [match[1]]. *)
Fixpoint exec (text : string) : option string :=
  match match_here text with
  | Some id => Some id
  | None =>
      match text with
      | EmptyString => None
      | String _ text' => exec text'
      end
  end.

(** Two strings equal up to case. *)
Fixpoint eq_i (a b : string) : bool :=
  match a, b with
  | EmptyString, EmptyString => true
  | String x a', String y b' => char_eq_i x y && eq_i a' b'
  | _, _ => false
  end.

(** A hexadecimal digit in either case, or a hyphen. *)
Definition is_hex_digit (c : ascii) : bool :=
  in_range 48 57 c || in_range 97 102 c || in_range 65 70 c.

Definition hex_or_hyphen (c : ascii) : bool :=
  is_hex_digit c || Ascii.eqb c "-".

(** [text] ends with the 36 characters [id], each a hexadecimal digit
    or a hyphen, followed by [" is done"] in any case. *)
Definition ends_with_id (text id : string) : Prop :=
  exists pre suf : string,
    text = pre ++ id ++ suf /\ String.length id = 36 /\
    all_chars hex_or_hyphen id = true /\ eq_i " is done" suf = true.

(** The identifier shape of the specification: 8, 4, 4, 4 and 12
    hexadecimal digits, in either case, separated by hyphens. *)
Definition uuid_template : string := "xxxxxxxx-xxxx-xxxx-xxxx-xxxxxxxxxxxx".

Fixpoint fits_template (t s : string) : bool :=
  match t, s with
  | EmptyString, EmptyString => true
  | String a t', String c s' =>
      (if Ascii.eqb a "-" then Ascii.eqb c "-" else is_hex_digit c)
      && fits_template t' s'
  | _, _ => false
  end.

Definition is_uuid_shape (s : string) : bool := fits_template uuid_template s.

End Regex.

Module Path.

(** The pieces of [s] between occurrences of [sep]; never empty. *)
Fixpoint split_on (sep : ascii) (s : string) : list string :=
  match s with
  | EmptyString => [EmptyString]
  | String c s' =>
      if Ascii.eqb c sep then EmptyString :: split_on sep s'
      else
        match split_on sep s' with
        | seg :: segs => String c seg :: segs
        | [] => [String c EmptyString]
        end
  end.

(** One segment of [normalizeString]; [res] is the result so far, last
    segment first.  Empty segments and ["."] are dropped; [".."] removes
    the last segment unless there is none or it is [".."] itself, and
    is then kept only above a relative root. *)
Definition normalize_segment (allowAboveRoot : bool) (res : list string)
    (seg : string) : list string :=
  if String.eqb seg "" || String.eqb seg "." then res
  else if String.eqb seg ".." then
    match res with
    | top :: rest =>
        if String.eqb top ".." then (if allowAboveRoot then ".." :: res else res)
        else rest
    | [] => if allowAboveRoot then [".."] else []
    end
  else seg :: res.

Definition normalizeString (path : string) (allowAboveRoot : bool) : string :=
  String.concat "/"
    (rev (fold_left (normalize_segment allowAboveRoot) (split_on "/" path) [])).

Definition starts_with_slash (s : string) : bool :=
  match s with
  | String c _ => Ascii.eqb c "/"
  | EmptyString => false
  end.

Fixpoint ends_with_slash (s : string) : bool :=
  match s with
  | EmptyString => false
  | String c EmptyString => Ascii.eqb c "/"
  | String _ s' => ends_with_slash s'
  end.

(** [path.normalize] (POSIX). *)
Definition normalize (path : string) : string :=
  if String.eqb path "" then "."
  else
    let isAbsolute := starts_with_slash path in
    let trailingSeparator := ends_with_slash path in
    let p := normalizeString path (negb isAbsolute) in
    if String.eqb p "" then
      if isAbsolute then "/" else if trailingSeparator then "./" else "."
    else
      let p := if trailingSeparator then p ++ "/" else p in
      if isAbsolute then "/" ++ p else p.

(** [path.join(...args)] (POSIX): the non-empty arguments joined by
    ["/"], then normalized. *)
Definition join (args : list string) : string :=
  match filter (fun a => a ≠ "") args with
  | [] => "."
  | parts => normalize (String.concat "/" parts)
  end.

(** The part of a path before its last ["/"], when it has one. *)
Fixpoint before_last_slash (s : string) : option string :=
  match s with
  | EmptyString => None
  | String c s' =>
      match before_last_slash s' with
      | Some d => Some (String c d)
      | None => if Ascii.eqb c "/" then Some EmptyString else None
      end
  end.

(** The directory a normalized path lives in. *)
Definition dirname (p : string) : string :=
  match before_last_slash p with
  | Some EmptyString => "/"
  | Some d => d
  | None => "."
  end.

Fixpoint strip_prefix (pre s : string) : option string :=
  match pre with
  | EmptyString => Some s
  | String a pre' =>
      match s with
      | EmptyString => None
      | String c s' => if Ascii.eqb a c then strip_prefix pre' s' else None
      end
  end.

(** [child_name dir p] is the name of [p] inside [dir] when [p] is an
    entry of [dir] itself, not of a directory below it. *)
Definition child_name (dir p : string) : option string :=
  match strip_prefix (dir ++ "/") p with
  | Some name =>
      if String.eqb name "" || has_char "/" name then None else Some name
  | None => None
  end.

Definition is_direct_child (dir p : string) : bool :=
  match child_name dir p with
  | Some name => negb (String.eqb name "." || String.eqb name "..")
  | None => false
  end.

(** A name that is a single proper path segment. *)
Definition plain_name (name : string) : Prop :=
  has_char "/" name = false /\ name <> "" /\ name <> "." /\ name <> "..".

End Path.

Module Fs.

Inductive errno : Set := ENOENT | EISDIR | ENOTDIR | EACCES | EIO | ENOSPC.

(** What a path names: a regular file with its bytes, or a directory. *)
Inductive node : Type :=
| File (data : list Byte.byte)
| Dir.

(** A call of [fs] with the arguments the script gives it. *)
Inductive syscall : Type :=
| SReaddir (path : string)
| SReadFile (path : string)
| SWriteFile (path : string) (data : string) (encoding : string)
| SUnlink (path : string).

(** The host of the script: it decides which calls fail for a reason of
    its own, what [uuid.v4()] returns at each draw, and how a buffer of
    bytes reads as text ([Buffer.prototype.toString], which is what
    [file + ': ' + data] applies to [data]).  For a write it makes fail
    it also decides when: before the file is opened ([None]), or after,
    with so many bytes written ([Some n]). *)
Record host : Type := {
  fault : syscall -> option errno;
  uuid_v4 : nat -> string;
  Buffer_toString : list Byte.byte -> string;
  written_before_fault : syscall -> option nat
}.

(** UTF-8 of a string of 8-bit code units: one byte below 128, two above. *)
Definition utf8_unit (c : ascii) : list Byte.byte :=
  if (code c <? 128)%N then [byte_of_ascii c]
  else [byte_of_ascii (ascii_of_N (192 + code c / 64));
        byte_of_ascii (ascii_of_N (128 + code c mod 64))].

(** The bytes [fs.writeFile] stores for a string under an encoding.
    Under ['ascii'] (as under ['latin1'] and ['binary']) Node stores the
    low eight bits of each code unit, one byte per unit; the default is
    UTF-8. *)
Definition Buffer_from (data encoding : string) : list Byte.byte :=
  if String.eqb encoding "ascii" || String.eqb encoding "latin1"
     || String.eqb encoding "binary"
  then list_byte_of_string data
  else flat_map utf8_unit (list_ascii_of_string data).

(** The current directory always exists; any other directory exists
    when the map says so. *)
Definition is_dir (fs : gmap string node) (p : string) : bool :=
  String.eqb p "."
  || match fs !! p with Some Dir => true | _ => false end.

(** [fs.readdir]: the names of the entries of a directory. *)
Definition readdir (h : host) (fs : gmap string node) (p : string)
    : option errno * list string :=
  match fault h (SReaddir p) with
  | Some e => (Some e, [])
  | None =>
      match fs !! p with
      | Some Dir => (None, omap (Path.child_name p) (map fst (map_to_list fs)))
      | Some (File _) => (Some ENOTDIR, [])
      | None => (Some ENOENT, [])
      end
  end.

(** [fs.readFile] without an encoding: the bytes of a regular file. *)
Definition readFile (h : host) (fs : gmap string node) (p : string)
    : option errno * list Byte.byte :=
  match fault h (SReadFile p) with
  | Some e => (Some e, [])
  | None =>
      match fs !! p with
      | Some (File data) => (None, data)
      | Some Dir => (Some EISDIR, [])
      | None => (Some ENOENT, [])
      end
  end.

(** Whether a file can be opened for writing at [p]: [p] is not a
    directory and the directory it lives in exists. *)
Definition can_open (fs : gmap string node) (p : string) : bool :=
  match fs !! p with
  | Some Dir => false
  | _ => is_dir fs (Path.dirname p)
  end.

(** [fs.writeFile]: opens the file, which creates it or empties it,
    writes the bytes and closes it.  A call that fails before the file
    is opened leaves the file system as it was; a call that fails after
    leaves the file with the bytes written so far, and nothing removes
    it. *)
Definition writeFile (h : host) (fs : gmap string node)
    (p data encoding : string) : option errno * gmap string node :=
  match fault h (SWriteFile p data encoding) with
  | Some e =>
      match written_before_fault h (SWriteFile p data encoding) with
      | Some n =>
          if can_open fs p
          then (Some e, <[p := File (take n (Buffer_from data encoding))]> fs)
          else (Some e, fs)
      | None => (Some e, fs)
      end
  | None =>
      match fs !! p with
      | Some Dir => (Some EISDIR, fs)
      | _ =>
          if is_dir fs (Path.dirname p)
          then (None, <[p := File (Buffer_from data encoding)]> fs)
          else (Some ENOENT, fs)
      end
  end.

(** [fs.unlink]: removes a regular file.  A call that fails leaves the
    file system as it was. *)
Definition unlink (h : host) (fs : gmap string node) (p : string)
    : option errno * gmap string node :=
  match fault h (SUnlink p) with
  | Some e => (Some e, fs)
  | None =>
      match fs !! p with
      | Some (File _) => (None, delete p fs)
      | Some Dir => (Some EISDIR, fs)
      | None => (Some ENOENT, fs)
      end
  end.

End Fs.

Module Todos.

Import Fs.

(** [const DATA_DIR = 'todos'] *)
Definition DATA_DIR : string := "todos".

(** A request to [fs] with its callback; [A] is what a callback does. *)
Inductive request (A : Type) : Type :=
| Readdir (path : string) (cb : option errno -> list string -> A)
| ReadFile (path : string) (cb : option errno -> list Byte.byte -> A)
| WriteFile (path data encoding : string) (cb : option errno -> A)
| Unlink (path : string) (cb : option errno -> A).

Arguments Readdir {A} path cb.
Arguments ReadFile {A} path cb.
Arguments WriteFile {A} path data encoding cb.
Arguments Unlink {A} path cb.

(** What a handler or a callback does, in order: [msg.reply(text)], or
    a call of [fs] that returns at once and completes later. *)
#[warnings="-register-all"]
Inductive action : Type :=
| Reply (text : string)
| Issue (r : request (list action)).

Definition syscall_of {A : Type} (r : request A) : syscall :=
  match r with
  | Readdir p _ => SReaddir p
  | ReadFile p _ => SReadFile p
  | WriteFile p data enc _ => SWriteFile p data enc
  | Unlink p _ => SUnlink p
  end.

(** The state of the bot and of its host. *)
Record world : Type := {
  fs : gmap string node;                   (* the file system *)
  pending : list (request (list action));  (* calls issued, not completed *)
  replies : list string;                   (* what the user has been told *)
  issued : list syscall;                   (* every call made, in order *)
  drawn : nat                              (* identifiers generated so far *)
}.

Definition init (fs0 : gmap string node) : world :=
  {| fs := fs0; pending := []; replies := []; issued := []; drawn := 0 |}.

Definition exec_action (w : world) (a : action) : world :=
  match a with
  | Reply text =>
      {| fs := fs w; pending := pending w; replies := replies w ++ [text];
         issued := issued w; drawn := drawn w |}
  | Issue r =>
      {| fs := fs w; pending := pending w ++ [r]; replies := replies w;
         issued := issued w ++ [syscall_of r]; drawn := drawn w |}
  end.

Definition exec_actions (acts : list action) (w : world) : world :=
  fold_left exec_action acts w.

(** Completing a request: the call takes effect on the file system and
    its callback runs on the outcome. *)
Definition complete (h : host) (fs0 : gmap string node)
    (r : request (list action)) : gmap string node * list action :=
  match r with
  | Readdir p cb => let '(err, files) := readdir h fs0 p in (fs0, cb err files)
  | ReadFile p cb => let '(err, data) := readFile h fs0 p in (fs0, cb err data)
  | WriteFile p data enc cb =>
      let '(err, fs1) := writeFile h fs0 p data enc in (fs1, cb err)
  | Unlink p cb => let '(err, fs1) := unlink h fs0 p in (fs1, cb err)
  end.

(** One turn of the event loop: the pending request number
    [choice mod n] of the [n] pending ones completes.  With nothing
    pending the loop idles. *)
Definition step (h : host) (w : world) (choice : nat) : world :=
  let i := (choice mod List.length (pending w))%nat in
  match pending w !! i with
  | None => w
  | Some r =>
      let '(fs1, acts) := complete h (fs w) r in
      exec_actions acts
        {| fs := fs1; pending := delete i (pending w); replies := replies w;
           issued := issued w; drawn := drawn w |}
  end.

(** The event loop under a schedule, one choice per turn. *)
Definition run (h : host) (sched : list nat) (w : world) : world :=
  fold_left (step h) sched w.

(** The request [show_handler] issues for one entry of the directory,
    and the reply that entry gets once its read completes on [fs0]. *)
Definition read_request (h : host) (file : string) : request (list action) :=
  ReadFile (Path.join [DATA_DIR; file]) (fun error data =>
    match error with
    | Some _ => [Reply "Uh oh! Had trouble opening a todo..."]
    | None => [Reply (file ++ ": " ++ Buffer_toString h data)]
    end).

Definition read_fails (h : host) (fs0 : gmap string node) (file : string) : bool :=
  match fst (readFile h fs0 (Path.join [DATA_DIR; file])) with
  | Some _ => true
  | None => false
  end.

Definition item_line (h : host) (fs0 : gmap string node) (file : string) : string :=
  file ++ ": "
  ++ Buffer_toString h (snd (readFile h fs0 (Path.join [DATA_DIR; file]))).

Definition read_reply (h : host) (fs0 : gmap string node) (file : string) : string :=
  if read_fails h fs0 file then "Uh oh! Had trouble opening a todo..."
  else item_line h fs0 file.

(** Handler of [hubot show my todo list]. *)
Definition show_handler (h : host) : list action :=
  [Issue (Readdir DATA_DIR (fun err files =>
     match err with
     | Some _ => [Reply "Oh no... I couldn't look for todos..."]
     | None =>
         if (List.length files =? 0)%nat then [Reply "The list is empty!"]
         else
           map (fun file =>
                  let dir := Path.join [DATA_DIR; file] in
                  Issue (ReadFile dir (fun error data =>
                    match error with
                    | Some _ => [Reply "Uh oh! Had trouble opening a todo..."]
                    | None => [Reply (file ++ ": " ++ Buffer_toString h data)]
                    end)))
               files
     end))].

(** Handler of [hubot add <item> to my todo list]; [todo] is
    [msg.match[1]] and [ID] the value of [uuid.v4()]. *)
Definition add_actions (ID todo : string) : list action :=
  let filename := Path.join [DATA_DIR; ID] in
  [Issue (WriteFile filename todo "ascii" (fun error =>
     match error with
     | Some _ => [Reply "Oh no... I couldn't write the todo file..."]
     | None => [Reply ("OK! I added " ++ todo ++ " to the todo list")]
     end))].

Definition add_handler (h : host) (todo : string) (w : world) : world :=
  let ID := uuid_v4 h (drawn w) in
  exec_actions (add_actions ID todo)
    {| fs := fs w; pending := pending w; replies := replies w;
       issued := issued w; drawn := S (drawn w) |}.

(** Handler of [hubot <itemID> is done]; [id] is [msg.match[1]]. *)
Definition remove_handler (id : string) : list action :=
  let filename := Path.join [DATA_DIR; id] in
  [Issue (Unlink filename (fun error =>
     match error with
     | Some _ => [Reply ("Couldn't find " ++ id)]
     | None => [Reply ("OK! Removed " ++ id)]
     end))].

(** The remove listener as far as the script decides it: the handler
    on [match[1]] for the texts its pattern matches, nothing for any
    other text.  The framework narrows this further, to the texts that
    address the robot first ([Commands.respond_done]); it never widens
    it and never changes the group.  So what holds whenever this
    pattern matches holds for every message the framework dispatches,
    and a text on which nothing runs here runs nothing there. *)
Definition respond_remove (text : string) : list action :=
  match Regex.exec text with
  | Some id => remove_handler id
  | None => []
  end.

End Todos.

(** Concrete hosts and file systems to run the model on. *)
Module Demo.

Import Fs Todos.

Definition host_with (f : syscall -> option errno) : host :=
  {| fault := f;
     uuid_v4 := fun _ => "110ec58a-a0f2-4ac4-8393-c866d813b8d1";
     Buffer_toString := string_of_list_byte;
     written_before_fault := fun _ => None |}.

(** A host on which no call fails for a reason of its own. *)
Definition sound_host : host := host_with (fun _ => None).

(** Hosts on which one kind of call always fails. *)
Definition no_readdir_host : host :=
  host_with (fun c => match c with SReaddir _ => Some EACCES | _ => None end).


(** A host on which every write runs out of space once its file is
    open, with nothing written. *)
Definition full_disk_host : host :=
  {| fault := fun c => match c with SWriteFile _ _ _ => Some ENOSPC | _ => None end;
     uuid_v4 := fun _ => "110ec58a-a0f2-4ac4-8393-c866d813b8d1";
     Buffer_toString := string_of_list_byte;
     written_before_fault := fun _ => Some 0 |}.

Definition no_unlink_host : host :=
  host_with (fun c => match c with SUnlink _ => Some EIO | _ => None end).

(** A storage directory with nothing in it. *)
Definition empty_store : gmap string node := {[ "todos" := Dir ]}.

(** A storage directory with two items and a directory, which cannot be
    read as a file, next to a file outside the storage directory. *)
Definition store : gmap string node :=
  <["todos" := Dir]>
  (<["todos/0b0e7a57-4f6e-4c0a-9d52-0d4f1f0c9a11" := File (list_byte_of_string "buy milk")]>
  (<["todos/7c9e6679-7425-40de-944b-e07fc1f90ae7" := File (list_byte_of_string "call home")]>
  (<["todos/attic" := Dir]>
  (<["notes.txt" := File (list_byte_of_string "keep")]> ∅)))).

(** A storage directory in which the name [uuid.v4] will give is in use. *)
Definition used_store : gmap string node :=
  <["todos/110ec58a-a0f2-4ac4-8393-c866d813b8d1"
    := File (list_byte_of_string "water plants")]> empty_store.

(** The names [fs.readdir] gives for [store], in the order it gives them. *)
Definition store_entries : list string :=
  ["7c9e6679-7425-40de-944b-e07fc1f90ae7"; "attic";
   "0b0e7a57-4f6e-4c0a-9d52-0d4f1f0c9a11"].

End Demo.

(** The patterns of the other two commands and the way a message reaches
    the handlers. *)
Module Commands.

Import Fs Todos.

(** [.] matches any character but a line terminator; among 8-bit code
    units these are line feed and carriage return. *)
Definition is_line_terminator (c : ascii) : bool :=
  Ascii.eqb c "010" || Ascii.eqb c "013".

Definition dot (c : ascii) : bool := negb (is_line_terminator c).

(** The add pattern is ["add "], a group that is a dot under a star,
    [" to my todo list"] and [$], with the flag [i].  This is what
    follows the group: the literal and the end of the input. *)
Definition add_tail (s : string) : bool :=
  match Regex.match_literal_i " to my todo list" s with
  | Some EmptyString => true
  | _ => false
  end.

(** The group followed by the tail.  The star is greedy: the engine first
    lets it take one more character and goes on, and only when that
    fails does it stop the star here and try the tail.  The result is
    the text of the group. *)
Fixpoint match_dot_star (s : string) : option string :=
  match s with
  | EmptyString => if add_tail s then Some EmptyString else None
  | String c s' =>
      let stop := if add_tail s then Some EmptyString else None in
      if dot c then
        match match_dot_star s' with
        | Some m => Some (String c m)
        | None => stop
        end
      else stop
  end.

(** The add pattern tried at the start of [s]. *)
Definition add_match_here (s : string) : option string :=
  match Regex.match_literal_i "add " s with
  | Some r => match_dot_star r
  | None => None
  end.

(** [text.match] of the add pattern by itself: every start position
    from the left; the result is [match[1]].  The framework tries the
    pattern at one place only ([respond_match] below), so it matches
    fewer texts than this, never more. *)
Fixpoint add_exec (text : string) : option string :=
  match add_match_here text with
  | Some todo => Some todo
  | None =>
      match text with
      | EmptyString => None
      | String _ text' => add_exec text'
      end
  end.

(** The list pattern, [/show my todo list$/i], tried at the start of [s]. *)
Definition show_match_here (s : string) : bool :=
  match Regex.match_literal_i "show my todo list" s with
  | Some EmptyString => true
  | _ => false
  end.

(** [/show my todo list$/i.test(text)]: the list pattern by itself, at
    every start position. *)
Fixpoint show_exec (text : string) : bool :=
  show_match_here text
  || match text with
     | EmptyString => false
     | String _ text' => show_exec text'
     end.

(** *** The framework's [robot.respond]

    Hubot does not listen with the pattern a script hands to
    [robot.respond]: from the name of the robot and the source of the
    pattern it builds another one, which reads, from the start of the
    text: white space, an optional at sign, the name, an optional
    colon or comma, white space, and then the script's pattern, under
    the script's flags.  So the script's pattern is tried at one place
    only, right after the robot has been addressed.  The robot here has
    a name and no alias. *)

(** White space of the engine among 8-bit code units: tab to carriage
    return, space and no-break space. *)
Definition is_space (c : ascii) : bool :=
  in_range 9 13 c || Ascii.eqb c " " || Ascii.eqb c "160".

Definition is_at (c : ascii) : bool := Ascii.eqb c "@".

Definition is_colon_or_comma (c : ascii) : bool :=
  Ascii.eqb c ":" || Ascii.eqb c ",".

(** Each piece of the prefix gives what can remain of the input after
    it, in the order the engine tries: a greedy star takes all the
    white space first and gives it back one character at a time, an
    optional character is first taken and then left. *)
Fixpoint spaces (s : string) : list string :=
  match s with
  | EmptyString => [s]
  | String c s' => if is_space c then spaces s' ++ [s] else [s]
  end.

Definition optional (p : ascii -> bool) (s : string) : list string :=
  match s with
  | EmptyString => [s]
  | String c s' => if p c then [s'; s] else [s]
  end.

Definition literal_i (lit s : string) : list string :=
  match Regex.match_literal_i lit s with
  | Some r => [r]
  | None => []
  end.

(** What can remain of [text] after the robot has been addressed, in
    the order the engine tries. *)
Definition addressed (name text : string) : list string :=
  flat_map spaces
    (flat_map (optional is_colon_or_comma)
       (flat_map (literal_i name)
          (flat_map (optional is_at) (spaces text)))).

Fixpoint first_match {A : Type} (f : string -> option A) (rests : list string)
    : option A :=
  match rests with
  | [] => None
  | r :: rests' =>
      match f r with
      | Some x => Some x
      | None => first_match f rests'
      end
  end.

(** The pattern the framework builds, run on [text]: the script's
    pattern, given by what it does at the start of an input, is tried
    on what remains after the prefix; the first success is the match. *)
Definition respond_match {A : Type} (name : string)
    (pattern_here : string -> option A) (text : string) : option A :=
  first_match pattern_here (addressed name text).

(** [text] addresses the robot and goes on with [rest]. *)
Definition addresses (name text rest : string) : Prop :=
  exists ws1 at_sign nm sep ws2 : string,
    text = ws1 ++ at_sign ++ nm ++ sep ++ ws2 ++ rest
    /\ all_chars is_space ws1 = true
    /\ (at_sign = "" \/ at_sign = "@")
    /\ Regex.eq_i name nm = true
    /\ (sep = "" \/ sep = ":" \/ sep = ",")
    /\ all_chars is_space ws2 = true.

(** A name that starts with a character that is neither white space
    nor an at sign, as the names of robots do. *)
Definition plain_start (name : string) : bool :=
  match name with
  | String c _ => negb (is_space c) && negb (is_at c)
  | EmptyString => false
  end.

Definition show_here (s : string) : option unit :=
  if show_match_here s then Some tt else None.

(** [robot.respond(/show my todo list$/i, ...)] *)
Definition respond_show (name : string) (h : host) (text : string)
    : list action :=
  match respond_match name show_here text with
  | Some _ => show_handler h
  | None => []
  end.

(** [robot.respond] of the add pattern. *)
Definition respond_add (name : string) (h : host) (text : string) (w : world)
    : world :=
  match respond_match name add_match_here text with
  | Some todo => add_handler h todo w
  | None => w
  end.

(** [robot.respond(/([0-9a-f\-]{36}) is done$/i, ...)] *)
Definition respond_done (name : string) (text : string) : list action :=
  match respond_match name Regex.match_here text with
  | Some id => remove_handler id
  | None => []
  end.

(** A message reaching the script: the framework offers it to the three
    listeners in the order [module.exports] registers them, and every
    listener whose pattern matches runs its handler. *)
Definition receive (name : string) (h : host) (text : string) (w : world)
    : world :=
  let w1 := exec_actions (respond_show name h text) w in
  let w2 := respond_add name h text w1 in
  exec_actions (respond_done name text) w2.

End Commands.

(** The start of [module.exports]: the check that [DATA_DIR] exists. *)
Module Boot.

Import Fs Todos.

(** The two synchronous calls; the host can fail either. *)
Inductive sync_call : Type :=
| StatSync (path : string)
| MkdirSync (path : string).

(** What a synchronous call throws. *)
Inductive exn : Type :=
| Errno (e : errno)
| EEXIST.

(** [fs.statSync]: throws when nothing has that name. *)
Definition statSync (sf : sync_call -> option errno) (fs0 : gmap string node)
    (p : string) : option exn :=
  match sf (StatSync p) with
  | Some e => Some (Errno e)
  | None =>
      if String.eqb p "." then None
      else match fs0 !! p with
           | Some _ => None
           | None => Some (Errno ENOENT)
           end
  end.

(** [fs.mkdirSync]: throws when the name is in use or the parent is not
    a directory; otherwise makes an empty directory. *)
Definition mkdirSync (sf : sync_call -> option errno) (fs0 : gmap string node)
    (p : string) : exn + gmap string node :=
  match sf (MkdirSync p) with
  | Some e => inl (Errno e)
  | None =>
      if String.eqb p "." then inl EEXIST
      else match fs0 !! p with
           | Some _ => inl EEXIST
           | None =>
               if is_dir fs0 (Path.dirname p) then inr (<[p := Dir]> fs0)
               else inl (Errno ENOENT)
           end
  end.

(** [try { fs.statSync(DATA_DIR); } catch (error) { fs.mkdirSync(DATA_DIR); }]:
    whatever [statSync] throws is caught and answered by [mkdirSync];
    what [mkdirSync] throws leaves [module.exports], and no handler is
    registered. *)
Definition bootstrap (sf : sync_call -> option errno) (fs0 : gmap string node)
    : exn + gmap string node :=
  match statSync sf fs0 DATA_DIR with
  | None => inr fs0
  | Some _ => mkdirSync sf fs0 DATA_DIR
  end.

(** A host whose synchronous calls never fail for a reason of its own. *)
Definition no_sync_fault (c : sync_call) : option errno := None.

End Boot.

(** * Facts *)

(** ** Strings *)

(** Appending to a string that starts with a known character unfolds. *)
#[local] Arguments String.append !s1 s2 : simpl nomatch.

Lemma string_length_app (a b : string) :
  String.length (a ++ b) = String.length a + String.length b.
Proof. induction a as [|c a IH]; simpl; [reflexivity | now rewrite IH]. Qed.

Lemma has_char_app (c : ascii) (a b : string) :
  has_char c (a ++ b) = has_char c a || has_char c b.
Proof.
  induction a as [|d a IH]; simpl; [reflexivity|].
  rewrite IH. now rewrite orb_assoc.
Qed.

Lemma all_chars_impl (p q : ascii -> bool) (s : string) :
  (forall c, p c = true -> q c = true) ->
  all_chars p s = true -> all_chars q s = true.
Proof.
  intros Hpq. induction s as [|c s IH]; simpl; [reflexivity|].
  intros [Hc Hs]%andb_true_iff. rewrite (Hpq c Hc). simpl. now apply IH.
Qed.

Lemma all_chars_no_char (p : ascii -> bool) (c : ascii) (s : string) :
  p c = false -> all_chars p s = true -> has_char c s = false.
Proof.
  intros Hc. induction s as [|d s IH]; simpl; [reflexivity|].
  intros [Hd Hs]%andb_true_iff. rewrite (IH Hs), orb_false_r.
  destruct (Ascii.eqb_spec c d) as [->|]; [congruence | reflexivity].
Qed.

(** ** The pattern of the remove command *)

Module RegexFacts.
Import Regex.

(** Going through the 256 characters settles any fact about one. *)
Ltac by_cases_on_char c :=
  destruct c as [[] [] [] [] [] [] [] []]; vm_compute; try reflexivity;
  try discriminate; auto.

Lemma id_char_hex_or_hyphen (c : ascii) : id_char c = hex_or_hyphen c.
Proof. by_cases_on_char c. Qed.

Lemma match_class_rep_sound (n : nat) (s m r : string) :
  match_class_rep n s = Some (m, r) ->
  s = m ++ r /\ String.length m = n /\ all_chars id_char m = true.
Proof.
  revert s m r. induction n as [|n IH]; simpl; intros s m r H.
  - injection H as <- <-. auto.
  - destruct s as [|c s]; [discriminate|].
    destruct (id_char c) eqn:Hc; [|discriminate].
    destruct (match_class_rep n s) as [[m' r']|] eqn:Hrep; [|discriminate].
    injection H as <- <-.
    destruct (IH _ _ _ Hrep) as (-> & <- & Hall).
    simpl. rewrite Hc, Hall. auto.
Qed.

Lemma match_class_rep_complete (m r : string) :
  all_chars id_char m = true ->
  match_class_rep (String.length m) (m ++ r) = Some (m, r).
Proof.
  induction m as [|c m IH]; simpl; [reflexivity|].
  intros [Hc Hm]%andb_true_iff. now rewrite Hc, (IH Hm).
Qed.

Lemma match_literal_i_sound (lit s r : string) :
  match_literal_i lit s = Some r ->
  exists m : string, s = m ++ r /\ eq_i lit m = true.
Proof.
  revert s. induction lit as [|a lit IH]; simpl; intros s H.
  - injection H as ->. now exists "".
  - destruct s as [|c s]; [discriminate|].
    destruct (char_eq_i a c) eqn:Hac; [|discriminate].
    destruct (IH _ H) as (m & -> & Hm).
    exists (String c m). simpl. now rewrite Hac, Hm.
Qed.

Lemma match_literal_i_complete (lit m r : string) :
  eq_i lit m = true -> match_literal_i lit (m ++ r) = Some r.
Proof.
  revert m. induction lit as [|a lit IH]; intros [|c m]; simpl;
    try discriminate; [reflexivity|].
  intros [Hac Hm]%andb_true_iff. now rewrite Hac, (IH _ Hm).
Qed.

Lemma eq_i_length (a b : string) :
  eq_i a b = true -> String.length b = String.length a.
Proof.
  revert b. induction a as [|x a IH]; intros [|y b]; simpl;
    try discriminate; [reflexivity|].
  intros [_ H]%andb_true_iff. now rewrite (IH _ H).
Qed.

Lemma string_app_empty_r (s : string) : s ++ "" = s.
Proof. induction s as [|c s IH]; simpl; [reflexivity | now rewrite IH]. Qed.

(** The pattern matches at the start of [s] exactly when [s] is 36
    characters of the class followed by [" is done"] and nothing more. *)
Lemma match_here_iff (s id : string) :
  match_here s = Some id <->
  exists suf : string,
    s = id ++ suf /\ String.length id = 36 /\
    all_chars id_char id = true /\ eq_i " is done" suf = true.
Proof.
  unfold match_here. split.
  - destruct (match_class_rep 36 s) as [[m r1]|] eqn:Hrep; [|discriminate].
    destruct (match_literal_i " is done" r1) as [[|? ?]|] eqn:Hlit;
      try discriminate.
    intros [= ->].
    destruct (match_class_rep_sound _ _ _ _ Hrep) as (-> & Hlen & Hall).
    destruct (match_literal_i_sound _ _ _ Hlit) as (suf & -> & Hsuf).
    rewrite string_app_empty_r. now exists suf.
  - intros (suf & -> & Hlen & Hall & Hsuf).
    rewrite <- Hlen, (match_class_rep_complete id suf Hall).
    rewrite <- (string_app_empty_r suf) at 1.
    now rewrite (match_literal_i_complete _ _ "" Hsuf).
Qed.

Lemma match_here_length (s id : string) :
  match_here s = Some id -> String.length s = 44.
Proof.
  intros (suf & -> & Hlen & _ & Hsuf)%match_here_iff.
  rewrite string_length_app, Hlen, (eq_i_length _ _ Hsuf). reflexivity.
Qed.

Lemma string_app_assoc (a b c : string) : (a ++ b) ++ c = a ++ (b ++ c).
Proof. induction a as [|x a IH]; simpl; [reflexivity | now rewrite IH]. Qed.

Lemma exec_unfold (text : string) :
  exec text =
  match match_here text with
  | Some id => Some id
  | None => match text with EmptyString => None | String _ t => exec t end
  end.
Proof. destruct text; reflexivity. Qed.

(** The engine finds the match wherever it starts: the end anchor and
    the fixed length leave one start position at most. *)
Lemma exec_iff (text id : string) :
  exec text = Some id <->
  exists pre suf : string,
    text = pre ++ id ++ suf /\ String.length id = 36 /\
    all_chars id_char id = true /\ eq_i " is done" suf = true.
Proof.
  split.
  - induction text as [|c text IH]; rewrite exec_unfold.
    + discriminate.
    + destruct (match_here (String c text)) eqn:H.
      * intros [= ->]. apply match_here_iff in H as (suf & H & ?).
        exists "", suf. auto.
      * intros (pre & suf & -> & ?)%IH. exists (String c pre), suf. auto.
  - intros (pre & suf & -> & Hlen & Hall & Hsuf).
    assert (Hhere : match_here (id ++ suf) = Some id)
      by (apply match_here_iff; eauto).
    induction pre as [|c pre IH].
    + rewrite exec_unfold. simpl. now rewrite Hhere.
    + rewrite exec_unfold.
      destruct (match_here (String c pre ++ id ++ suf)) eqn:H; [|exact IH].
      apply match_here_length in H.
      rewrite !string_length_app, Hlen, (eq_i_length _ _ Hsuf) in H.
      simpl in H. lia.
Qed.

Example exec_mixed_case :
  exec "hubot 110EC58A-a0f2-4ac4-8393-C866D813B8D1 Is DONE"
  = Some "110EC58A-a0f2-4ac4-8393-C866D813B8D1".
Proof. reflexivity. Qed.

Example exec_needs_the_end :
  exec "110ec58a-a0f2-4ac4-8393-c866d813b8d1 is done!" = None.
Proof. reflexivity. Qed.

Example exec_needs_36 :
  exec "110ec58a-a0f2-4ac4-8393-c866d813b8d is done" = None.
Proof. reflexivity. Qed.

Lemma fits_template_chars (t s : string) :
  fits_template t s = true ->
  String.length s = String.length t /\ all_chars hex_or_hyphen s = true.
Proof.
  revert s. induction t as [|a t IH]; intros [|c s]; simpl;
    try discriminate; [auto|].
  intros [Hc Hs]%andb_true_iff. destruct (IH _ Hs) as [-> ->].
  split; [reflexivity|]. rewrite andb_true_r. unfold hex_or_hyphen.
  destruct (Ascii.eqb a "-"); rewrite Hc; [apply orb_true_r | reflexivity].
Qed.

Lemma eq_i_refl_is_done : eq_i " is done" " is done" = true.
Proof. reflexivity. Qed.

End RegexFacts.

(** ** Paths below the storage directory *)

Module PathFacts.
Import Path.

(** [path.join] resolves [".."]: a name with a separator or made of
    dots would leave the storage directory. *)
Example join_parent : join ["todos"; "../notes.txt"] = "notes.txt".
Proof. reflexivity. Qed.

Example join_dots : join ["todos"; ".."] = ".".
Proof. reflexivity. Qed.

Example join_nested : join ["todos"; "attic//x/./y/"] = "todos/attic/x/y/".
Proof. reflexivity. Qed.

Lemma split_on_no_sep (sep : ascii) (s : string) :
  has_char sep s = false -> split_on sep s = [s].
Proof.
  induction s as [|c s IH]; cbn [has_char split_on]; [reflexivity|].
  intros [Hc Hs]%orb_false_iff. rewrite (IH Hs).
  now rewrite Ascii.eqb_sym, Hc.
Qed.

Lemma ends_with_slash_no_slash (s : string) :
  has_char "/" s = false -> ends_with_slash s = false.
Proof.
  induction s as [|c s IH]; cbn [has_char ends_with_slash]; [reflexivity|].
  intros [Hc Hs]%orb_false_iff. destruct s; [|now apply IH].
  now rewrite Ascii.eqb_sym.
Qed.

Lemma before_last_slash_no_slash (s : string) :
  has_char "/" s = false -> before_last_slash s = None.
Proof.
  induction s as [|c s IH]; cbn [has_char before_last_slash]; [reflexivity|].
  intros [Hc Hs]%orb_false_iff. rewrite (IH Hs).
  now rewrite Ascii.eqb_sym, Hc.
Qed.

Lemma normalize_segment_plain (allow : bool) (res : list string) (seg : string) :
  plain_name seg -> normalize_segment allow res seg = seg :: res.
Proof.
  intros (_ & Hne & Hdot & Hdots). unfold normalize_segment.
  apply String.eqb_neq in Hne, Hdot, Hdots. now rewrite Hne, Hdot, Hdots.
Qed.

Lemma normalizeString_entry (name : string) :
  plain_name name -> normalizeString ("todos/" ++ name) true = "todos/" ++ name.
Proof.
  intros Hname. unfold normalizeString.
  replace (split_on "/" ("todos/" ++ name)) with ["todos"; name].
  - cbn [fold_left].
    rewrite (normalize_segment_plain _ _ "todos") by (repeat split; discriminate).
    rewrite (normalize_segment_plain _ _ name Hname). reflexivity.
  - destruct Hname as (Hslash & _).
    cbn. now rewrite (split_on_no_sep _ _ Hslash).
Qed.

Lemma normalize_entry (name : string) :
  plain_name name -> normalize ("todos/" ++ name) = "todos/" ++ name.
Proof.
  intros Hname. unfold normalize.
  change (String.eqb ("todos/" ++ name) "") with false.
  change (starts_with_slash ("todos/" ++ name)) with false.
  cbn [negb]. rewrite (normalizeString_entry name Hname).
  change (String.eqb ("todos/" ++ name) "") with false.
  destruct Hname as (Hslash & Hne & _).
  destruct name as [|c name]; [congruence|].
  change (ends_with_slash ("todos/" ++ String c name))
    with (ends_with_slash (String c name)).
  now rewrite (ends_with_slash_no_slash _ Hslash).
Qed.

(** [path.join(DATA_DIR, name)] of a plain name is the entry [name] of
    the storage directory. *)
Lemma join_entry (name : string) :
  plain_name name -> join ["todos"; name] = "todos/" ++ name.
Proof.
  intros Hname. pose proof Hname as (_ & Hne & _).
  unfold join. rewrite filter_cons_True by discriminate.
  rewrite filter_cons_True by exact Hne. rewrite filter_nil.
  exact (normalize_entry name Hname).
Qed.

Lemma strip_prefix_app (pre s : string) : strip_prefix pre (pre ++ s) = Some s.
Proof.
  induction pre as [|a pre IH]; simpl; [reflexivity|].
  now rewrite Ascii.eqb_refl.
Qed.

Lemma child_name_entry (name : string) :
  plain_name name -> child_name "todos" ("todos/" ++ name) = Some name.
Proof.
  intros (Hslash & Hne & _). unfold child_name.
  change ("todos/" ++ name) with (("todos" ++ "/") ++ name).
  rewrite strip_prefix_app, Hslash.
  apply String.eqb_neq in Hne. now rewrite Hne.
Qed.

Lemma is_direct_child_entry (name : string) :
  plain_name name -> is_direct_child "todos" ("todos/" ++ name) = true.
Proof.
  intros Hname. unfold is_direct_child. rewrite (child_name_entry _ Hname).
  destruct Hname as (_ & _ & Hdot & Hdots).
  apply String.eqb_neq in Hdot, Hdots. now rewrite Hdot, Hdots.
Qed.

Lemma dirname_entry (name : string) :
  plain_name name -> dirname ("todos/" ++ name) = "todos".
Proof.
  intros (Hslash & _). unfold dirname. simpl.
  now rewrite (before_last_slash_no_slash _ Hslash).
Qed.

(** Thirty-six hexadecimal digits and hyphens make a plain name: the
    class of the pattern has neither the separator nor the dot. *)
Lemma id_plain_name (id : string) :
  String.length id = 36 -> all_chars Regex.hex_or_hyphen id = true ->
  plain_name id /\ has_char "." id = false.
Proof.
  intros Hlen Hall.
  assert (Hdot : has_char "." id = false)
    by (now apply (all_chars_no_char Regex.hex_or_hyphen)).
  repeat split; try assumption.
  - now apply (all_chars_no_char Regex.hex_or_hyphen).
  - intros ->. discriminate.
  - intros ->. discriminate.
  - intros ->. discriminate.
Qed.

End PathFacts.

(** ** The event loop *)

Module LoopFacts.
Import Fs Todos.

#[local] Arguments Path.join : simpl never.

Lemma step_idle (h : host) (w : world) (c : nat) :
  pending w = [] -> step h w c = w.
Proof. intros H. unfold step. now rewrite H. Qed.

Lemma run_idle (h : host) (sched : list nat) (w : world) :
  pending w = [] -> run h sched w = w.
Proof.
  intros H. unfold run. induction sched as [|c sched IH]; [reflexivity|].
  cbn [fold_left]. now rewrite (step_idle h w c H).
Qed.

Lemma run_cons (h : host) (c : nat) (sched : list nat) (w : world) :
  run h (c :: sched) w = run h sched (step h w c).
Proof. reflexivity. Qed.

(** With one request pending every choice completes that one. *)
Lemma step_single (h : host) (w : world) (r : request (list action)) (c : nat) :
  pending w = [r] ->
  step h w c =
  exec_actions (snd (complete h (fs w) r))
    {| fs := fst (complete h (fs w) r); pending := []; replies := replies w;
       issued := issued w; drawn := drawn w |}.
Proof.
  intros H. unfold step. rewrite H. cbn [List.length].
  rewrite Nat.mod_1_r. cbn [lookup list_lookup delete list_delete].
  now destruct (complete h (fs w) r).
Qed.

Lemma exec_actions_issue (rs : list (request (list action))) (w : world) :
  exec_actions (map Issue rs) w =
  {| fs := fs w; pending := pending w ++ rs; replies := replies w;
     issued := issued w ++ map syscall_of rs; drawn := drawn w |}.
Proof.
  unfold exec_actions. revert w.
  induction rs as [|r rs IH]; intros w; cbn [map fold_left].
  - rewrite !app_nil_r. now destruct w.
  - rewrite IH. cbn. now rewrite <- !app_assoc.
Qed.

Lemma map_lookup {A B : Type} (f : A -> B) (l : list A) (i : nat) :
  map f l !! i = f <$> (l !! i).
Proof. exact (list_lookup_fmap f l i). Qed.

Lemma map_delete {A B : Type} (f : A -> B) (l : list A) (i : nat) :
  delete i (map f l) = map f (delete i l).
Proof. symmetry. exact (list_fmap_delete f l i). Qed.

(** Completing the read of one entry leaves the file system as it is
    and replies once. *)
Lemma complete_read (h : host) (fs0 : gmap string node) (file : string) :
  complete h fs0 (read_request h file) = (fs0, [Reply (read_reply h fs0 file)]).
Proof.
  unfold complete, read_request, read_reply, read_fails, item_line.
  now destruct (readFile h fs0 (Path.join [DATA_DIR; file])) as [[e|] data].
Qed.

(** Whatever the order in which the reads complete, once the schedule
    has a turn for each of them nothing is pending, the file system is
    untouched, and the replies are those of the entries, each once. *)
Lemma drain_reads (h : host) (fs0 : gmap string node) (d : nat)
    (sched : list nat) :
  forall (files : list string) (rs : list string) (iss : list syscall),
    List.length files <= List.length sched ->
    exists rs' : list string,
      run h sched {| fs := fs0; pending := map (read_request h) files;
                     replies := rs; issued := iss; drawn := d |}
      = {| fs := fs0; pending := []; replies := rs ++ rs';
           issued := iss; drawn := d |}
      /\ rs' ≡ₚ map (read_reply h fs0) files.
Proof.
  induction sched as [|c sched IH]; intros files rs iss Hlen.
  - destruct files; [|cbn in Hlen; lia].
    exists []. now rewrite app_nil_r.
  - destruct (decide (files = [])) as [->|Hne].
    + exists []. rewrite app_nil_r. now rewrite run_idle.
    + set (i := c mod List.length files).
      assert (Hi : i < List.length files)
        by (apply Nat.mod_upper_bound; now destruct files).
      destruct (lookup_lt_is_Some_2 files i Hi) as [x Hx].
      rewrite run_cons. unfold step. cbn [pending fs replies issued drawn].
      rewrite length_map. fold i. rewrite map_lookup, Hx. cbn [fmap option_fmap option_map].
      rewrite complete_read, map_delete. cbn [exec_actions fold_left exec_action].
      cbn [pending fs replies issued drawn].
      destruct (IH (delete i files) (rs ++ [read_reply h fs0 x])%list iss)
        as (rs' & Hrun & Hperm).
      { rewrite length_delete by eauto. cbn in Hlen. lia. }
      exists (read_reply h fs0 x :: rs'). split.
      * rewrite Hrun. now rewrite <- app_assoc.
      * rewrite Hperm. change (read_reply h fs0 x :: map (read_reply h fs0) (delete i files))
          with (map (read_reply h fs0) (x :: delete i files)).
        apply Permutation_map. symmetry. now apply delete_Permutation.
Qed.

End LoopFacts.

(** ** The list command *)

Module ShowFacts.
Import Fs Todos LoopFacts.

#[local] Arguments Path.join : simpl never.

Lemma step_show (h : host) (w0 : world) (c : nat) :
  pending w0 = [] ->
  step h (exec_actions (show_handler h) w0) c =
  match readdir h (fs w0) DATA_DIR with
  | (Some _, _) =>
      {| fs := fs w0; pending := [];
         replies := replies w0 ++ ["Oh no... I couldn't look for todos..."];
         issued := issued w0 ++ [SReaddir DATA_DIR]; drawn := drawn w0 |}
  | (None, []) =>
      {| fs := fs w0; pending := [];
         replies := replies w0 ++ ["The list is empty!"];
         issued := issued w0 ++ [SReaddir DATA_DIR]; drawn := drawn w0 |}
  | (None, files) =>
      {| fs := fs w0; pending := map (read_request h) files;
         replies := replies w0;
         issued := (issued w0 ++ [SReaddir DATA_DIR])
                   ++ map (fun file => SReadFile (Path.join [DATA_DIR; file])) files;
         drawn := drawn w0 |}
  end.
Proof.
  intros Hq. unfold show_handler.
  erewrite step_single by (cbn; rewrite Hq; reflexivity).
  cbn [exec_actions fold_left exec_action fs replies issued drawn complete
       syscall_of fst snd].
  destruct (readdir h (fs w0) DATA_DIR) as [[e|] [|file files]]; cbn [fst snd].
  - reflexivity.
  - reflexivity.
  - reflexivity.
  - cbn [List.length Nat.eqb].
    match goal with
    | |- exec_actions _ ?w = ?r =>
        change (exec_actions
                  (map (fun x => Issue (read_request h x)) (file :: files)) w = r)
    end.
    rewrite <- (map_map (read_request h) Issue (file :: files)).
    rewrite exec_actions_issue. cbn [fs pending replies issued drawn].
    now rewrite map_map.
Qed.

Lemma omap_all_none {A B : Type} (f : A -> option B) (l : list A) :
  (forall x, x ∈ l -> f x = None) -> omap f l = [].
Proof.
  induction l as [|x l IH]; intros H; cbn; [reflexivity|].
  rewrite (H x) by left. apply IH. intros y Hy. apply H. now right.
Qed.

(** A storage directory that exists and has no entry lists as empty. *)
Lemma readdir_no_entries (h : host) (fs0 : gmap string node) :
  fault h (SReaddir DATA_DIR) = None ->
  fs0 !! DATA_DIR = Some Dir ->
  (forall p n, fs0 !! p = Some n -> Path.child_name DATA_DIR p = None) ->
  readdir h fs0 DATA_DIR = (None, []).
Proof.
  intros Hfault Hdir Hnone. unfold readdir. rewrite Hfault, Hdir.
  f_equal. apply omap_all_none. intros p Hp.
  change (p ∈ (map_to_list fs0).*1) in Hp.
  apply list_elem_of_fmap in Hp as ([q n] & -> & Hq).
  apply elem_of_map_to_list in Hq. exact (Hnone q n Hq).
Qed.

(** The list command over a directory with entries, run until every
    read has completed. *)
Lemma run_show_entries (h : host) (fs0 : gmap string node)
    (files : list string) (sched : list nat) :
  readdir h fs0 DATA_DIR = (None, files) -> files <> [] ->
  List.length files < List.length sched ->
  exists rs : list string,
    run h sched (exec_actions (show_handler h) (init fs0))
    = {| fs := fs0; pending := []; replies := rs;
         issued := SReaddir DATA_DIR
                   :: map (fun file => SReadFile (Path.join [DATA_DIR; file])) files;
         drawn := 0 |}
    /\ rs ≡ₚ map (read_reply h fs0) files.
Proof.
  intros Hdir Hne Hlen.
  destruct sched as [|c sched]; [cbn in Hlen; lia|].
  rewrite run_cons, step_show by reflexivity.
  cbn [init fs replies issued drawn]. rewrite Hdir.
  destruct files as [|file files]; [congruence|].
  destruct (drain_reads h fs0 0 sched (file :: files) []
              (([] ++ [SReaddir DATA_DIR])
               ++ map (fun f => SReadFile (Path.join [DATA_DIR; f])) (file :: files)))
    as (rs & Hrun & Hperm).
  { cbn in Hlen |- *. lia. }
  exists rs. split; [|exact Hperm]. rewrite Hrun. reflexivity.
Qed.

Lemma item_line_has_colon (h : host) (fs0 : gmap string node) (file : string) :
  has_char ":" (item_line h fs0 file) = true.
Proof.
  unfold item_line. rewrite has_char_app. cbn [String.append has_char].
  rewrite Ascii.eqb_refl. apply orb_true_r.
Qed.

(** The reply of an entry is the error message exactly when its read
    fails: an item line has a colon and the message has none. *)
Lemma read_reply_error_iff (h : host) (fs0 : gmap string node) (file : string) :
  read_reply h fs0 file = "Uh oh! Had trouble opening a todo..."
  <-> read_fails h fs0 file = true.
Proof.
  unfold read_reply. destruct (read_fails h fs0 file); [tauto|].
  split; [|discriminate]. intros H.
  pose proof (item_line_has_colon h fs0 file) as Hcolon.
  rewrite H in Hcolon. discriminate.
Qed.

Lemma count_error_replies (h : host) (fs0 : gmap string node) (files : list string) :
  List.length (filter (fun r => r = "Uh oh! Had trouble opening a todo...")
                 (map (read_reply h fs0) files))
  = List.length (filter (fun file => read_fails h fs0 file = true) files).
Proof.
  induction files as [|file files IH]; [reflexivity|].
  cbn [map]. rewrite !filter_cons.
  destruct (decide (read_fails h fs0 file = true)) as [Hf|Hf].
  - rewrite decide_True by now apply read_reply_error_iff.
    cbn [List.length]. now rewrite IH.
  - rewrite decide_False by now rewrite read_reply_error_iff.
    exact IH.
Qed.

Lemma item_lines_of_replies (h : host) (fs0 : gmap string node) (files : list string) :
  filter (fun r => r <> "Uh oh! Had trouble opening a todo...")
    (map (read_reply h fs0) files)
  = map (item_line h fs0) (filter (fun file => read_fails h fs0 file = false) files).
Proof.
  induction files as [|file files IH]; [reflexivity|].
  cbn [map]. rewrite !filter_cons.
  destruct (read_fails h fs0 file) eqn:Hf.
  - rewrite decide_False
      by (intros H; apply H; apply read_reply_error_iff; exact Hf).
    rewrite decide_False by discriminate. exact IH.
  - rewrite decide_True
      by (rewrite read_reply_error_iff; congruence).
    rewrite decide_True by reflexivity.
    cbn [map]. rewrite IH. unfold read_reply. now rewrite Hf.
Qed.

(** C3. When [fs.readdir] reports an error, the list command replies
    once, with "Oh no... I couldn't look for todos...".  The only call
    it ever makes is that [readdir]: no file is read, so there is no
    item line and no per-file message.  This holds under every schedule
    and whatever the error is. *)
Theorem show_readdir_error (h : host) (fs0 : gmap string node) (e : errno)
    (sched : list nat) :
  fst (readdir h fs0 DATA_DIR) = Some e -> sched <> [] ->
  run h sched (exec_actions (show_handler h) (init fs0))
  = {| fs := fs0; pending := [];
       replies := ["Oh no... I couldn't look for todos..."];
       issued := [SReaddir DATA_DIR]; drawn := 0 |}.
Proof.
  intros Herr Hsched. destruct sched as [|c sched]; [congruence|].
  rewrite run_cons, step_show by reflexivity. cbn [init fs].
  destruct (readdir h fs0 DATA_DIR) as [[e'|] files]; [|discriminate].
  now rewrite run_idle.
Qed.

Lemma show_readdir_error_witness :
  fst (readdir Demo.no_readdir_host Demo.store DATA_DIR) = Some EACCES
  /\ run Demo.no_readdir_host [0; 1]
       (exec_actions (show_handler Demo.no_readdir_host) (init Demo.store))
     = {| fs := Demo.store; pending := [];
          replies := ["Oh no... I couldn't look for todos..."];
          issued := [SReaddir DATA_DIR]; drawn := 0 |}.
Proof.
  split; [reflexivity|].
  apply (show_readdir_error Demo.no_readdir_host Demo.store EACCES [0; 1]);
    [reflexivity | discriminate].
Defined.

(** C7. When the storage directory exists, has no entry and can be
    listed, the list command replies once, with "The list is empty!".
    Its only call is the [readdir]: it reads no file and emits no item
    line. *)
Theorem show_empty_directory (h : host) (fs0 : gmap string node)
    (sched : list nat) :
  fault h (SReaddir DATA_DIR) = None ->
  fs0 !! DATA_DIR = Some Dir ->
  (forall p n, fs0 !! p = Some n -> Path.child_name DATA_DIR p = None) ->
  sched <> [] ->
  run h sched (exec_actions (show_handler h) (init fs0))
  = {| fs := fs0; pending := []; replies := ["The list is empty!"];
       issued := [SReaddir DATA_DIR]; drawn := 0 |}.
Proof.
  intros Hfault Hdir Hnone Hsched. destruct sched as [|c sched]; [congruence|].
  rewrite run_cons, step_show by reflexivity. cbn [init fs].
  rewrite (readdir_no_entries h fs0 Hfault Hdir Hnone).
  now rewrite run_idle.
Qed.

Lemma show_empty_directory_witness :
  run Demo.sound_host [0]
    (exec_actions (show_handler Demo.sound_host) (init Demo.empty_store))
  = {| fs := Demo.empty_store; pending := []; replies := ["The list is empty!"];
       issued := [SReaddir DATA_DIR]; drawn := 0 |}.
Proof.
  apply (show_empty_directory Demo.sound_host Demo.empty_store [0]).
  - reflexivity.
  - reflexivity.
  - intros p n Hp. unfold Demo.empty_store in Hp.
    apply lookup_singleton_Some in Hp as [<- _]. reflexivity.
  - discriminate.
Defined.

(** C4. Over a directory with entries, the list command reads every
    entry, whether or not earlier reads failed, and each entry gets one
    reply of its own: under every schedule that lets all reads complete,
    the replies are, up to order, the list of the entries' replies.
    There are as many replies as entries, and as many
    "Uh oh! Had trouble opening a todo..." among them as entries whose
    read fails. *)
Theorem show_partial_failure (h : host) (fs0 : gmap string node)
    (files : list string) (sched : list nat) :
  readdir h fs0 DATA_DIR = (None, files) -> files <> [] ->
  List.length files < List.length sched ->
  let w := run h sched (exec_actions (show_handler h) (init fs0)) in
  pending w = []
  /\ issued w = SReaddir DATA_DIR
                :: map (fun file => SReadFile (Path.join [DATA_DIR; file])) files
  /\ replies w ≡ₚ map (read_reply h fs0) files
  /\ List.length (replies w) = List.length files
  /\ List.length (filter (fun r => r = "Uh oh! Had trouble opening a todo...")
                    (replies w))
     = List.length (filter (fun file => read_fails h fs0 file = true) files).
Proof.
  intros Hdir Hne Hlen w.
  destruct (run_show_entries h fs0 files sched Hdir Hne Hlen) as (rs & Hrun & Hperm).
  subst w. rewrite Hrun. cbn [pending issued replies].
  repeat split; try assumption.
  - now rewrite Hperm, length_map.
  - rewrite Hperm. apply count_error_replies.
Qed.

Lemma show_partial_failure_witness :
  readdir Demo.sound_host Demo.store DATA_DIR = (None, Demo.store_entries)
  /\ List.length
       (filter (fun r => r = "Uh oh! Had trouble opening a todo...")
          (replies (run Demo.sound_host [0; 2; 0; 7]
                      (exec_actions (show_handler Demo.sound_host)
                                    (init Demo.store)))))
     = 1.
Proof.
  assert (Hdir : readdir Demo.sound_host Demo.store DATA_DIR
                 = (None, Demo.store_entries)) by reflexivity.
  split; [exact Hdir|].
  destruct (show_partial_failure Demo.sound_host Demo.store Demo.store_entries
              [0; 2; 0; 7] Hdir) as (_ & _ & _ & _ & Hcount).
  - discriminate.
  - cbn. lia.
  - rewrite Hcount. reflexivity.
Defined.

(** C9. Over a directory with entries, the replies other than the
    per-file error message are, up to order, the item lines of the
    entries whose read succeeds, one line per such entry.  The line of
    an entry is its name, ": ", and the text of all the bytes of its
    file. *)
Theorem show_item_lines (h : host) (fs0 : gmap string node)
    (files : list string) (sched : list nat) :
  readdir h fs0 DATA_DIR = (None, files) -> files <> [] ->
  List.length files < List.length sched ->
  let w := run h sched (exec_actions (show_handler h) (init fs0)) in
  filter (fun r => r <> "Uh oh! Had trouble opening a todo...") (replies w)
  ≡ₚ map (item_line h fs0) (filter (fun file => read_fails h fs0 file = false) files)
  /\ forall (file : string) (data : list Byte.byte),
       file ∈ files ->
       fault h (SReadFile (Path.join [DATA_DIR; file])) = None ->
       fs0 !! Path.join [DATA_DIR; file] = Some (File data) ->
       item_line h fs0 file = file ++ ": " ++ Buffer_toString h data
       /\ (file ++ ": " ++ Buffer_toString h data) ∈ replies w.
Proof.
  intros Hdir Hne Hlen w.
  destruct (run_show_entries h fs0 files sched Hdir Hne Hlen) as (rs & Hrun & Hperm).
  subst w. rewrite Hrun. cbn [replies]. split.
  - rewrite Hperm. now rewrite item_lines_of_replies.
  - intros file data Hin Hfault Hfile.
    assert (Hread : readFile h fs0 (Path.join [DATA_DIR; file]) = (None, data))
      by (unfold readFile; now rewrite Hfault, Hfile).
    assert (Hline : item_line h fs0 file = file ++ ": " ++ Buffer_toString h data)
      by (unfold item_line; now rewrite Hread).
    split; [exact Hline|].
    rewrite Hperm, <- Hline.
    replace (item_line h fs0 file) with (read_reply h fs0 file)
      by (unfold read_reply, read_fails; now rewrite Hread).
    apply list_elem_of_In, in_map, list_elem_of_In, Hin.
Qed.

Lemma show_item_lines_witness :
  readdir Demo.sound_host Demo.store DATA_DIR = (None, Demo.store_entries)
  /\ filter (fun r => r <> "Uh oh! Had trouble opening a todo...")
       (replies (run Demo.sound_host [0; 0; 0; 0; 5]
                   (exec_actions (show_handler Demo.sound_host)
                                 (init Demo.store))))
     ≡ₚ ["7c9e6679-7425-40de-944b-e07fc1f90ae7: call home";
         "0b0e7a57-4f6e-4c0a-9d52-0d4f1f0c9a11: buy milk"].
Proof.
  assert (Hdir : readdir Demo.sound_host Demo.store DATA_DIR
                 = (None, Demo.store_entries)) by reflexivity.
  split; [exact Hdir|].
  destruct (show_item_lines Demo.sound_host Demo.store Demo.store_entries
              [0; 0; 0; 0; 5] Hdir) as (Hlines & _).
  - discriminate.
  - cbn. lia.
  - exact Hlines.
Defined.

End ShowFacts.

(** ** The add and remove commands *)

Module CommandFacts.
Import Fs Todos LoopFacts.

#[local] Arguments Path.join : simpl never.

(** *** The calls *)

(** A write that fails leaves the file system as it was or, when it
    fails with the file open, with a prefix of the bytes in the file. *)
Lemma writeFile_failed (h : host) (fs0 : gmap string node) (p data enc : string)
    (e : errno) :
  fst (writeFile h fs0 p data enc) = Some e ->
  snd (writeFile h fs0 p data enc) = fs0
  \/ exists n : nat,
       snd (writeFile h fs0 p data enc)
       = <[p := File (take n (Buffer_from data enc))]> fs0.
Proof.
  unfold writeFile.
  destruct (fault h (SWriteFile p data enc)).
  - destruct (written_before_fault h (SWriteFile p data enc)) as [n|]; [|now left].
    destruct (can_open fs0 p); [right; now exists n | now left].
  - destruct (fs0 !! p) as [[d|]|]; try (now left);
      destruct (is_dir fs0 (Path.dirname p)); intros H; cbn [fst snd] in *;
      first [discriminate H | now left].
Qed.


(** Where no file can be opened every write fails and changes nothing. *)
Lemma writeFile_closed (h : host) (fs0 : gmap string node) (p data enc : string) :
  can_open fs0 p = false ->
  fst (writeFile h fs0 p data enc) <> None
  /\ snd (writeFile h fs0 p data enc) = fs0.
Proof.
  unfold writeFile, can_open. intros Hc.
  destruct (fault h (SWriteFile p data enc)).
  - destruct (written_before_fault h (SWriteFile p data enc)); [|now split].
    unfold can_open. rewrite Hc. now split.
  - destruct (fs0 !! p) as [[d|]|]; try (now split); rewrite Hc; now split.
Qed.

Lemma writeFile_ok (h : host) (fs0 : gmap string node) (p data enc : string) :
  fst (writeFile h fs0 p data enc) = None ->
  snd (writeFile h fs0 p data enc) = <[p := File (Buffer_from data enc)]> fs0.
Proof.
  unfold writeFile.
  destruct (fault h (SWriteFile p data enc)).
  - destruct (written_before_fault h (SWriteFile p data enc));
      [destruct (can_open fs0 p)|]; discriminate.
  - destruct (fs0 !! p) as [[d|]|]; try discriminate;
      now destruct (is_dir fs0 (Path.dirname p)).
Qed.

Lemma unlink_error (h : host) (fs0 : gmap string node) (p : string) (e : errno) :
  fst (unlink h fs0 p) = Some e -> snd (unlink h fs0 p) = fs0.
Proof.
  unfold unlink. destruct (fault h (SUnlink p)); [reflexivity|].
  now destruct (fs0 !! p) as [[d|]|].
Qed.

Lemma unlink_ok (h : host) (fs0 : gmap string node) (p : string) :
  fst (unlink h fs0 p) = None -> snd (unlink h fs0 p) = delete p fs0.
Proof.
  unfold unlink. destruct (fault h (SUnlink p)); [discriminate|].
  now destruct (fs0 !! p) as [[d|]|].
Qed.

(** A file that is not there cannot be removed. *)
Lemma unlink_missing (h : host) (fs0 : gmap string node) (p : string) :
  fs0 !! p = None -> fst (unlink h fs0 p) <> None.
Proof.
  intros Hp. unfold unlink. destruct (fault h (SUnlink p)); [discriminate|].
  now rewrite Hp.
Qed.

Lemma unlink_fault (h : host) (fs0 : gmap string node) (p : string) (e : errno) :
  fault h (SUnlink p) = Some e -> fst (unlink h fs0 p) = Some e.
Proof. intros Hf. unfold unlink. now rewrite Hf. Qed.

(** *** The commands run to completion *)

Lemma run_add (h : host) (w0 : world) (todo : string) (c : nat)
    (sched : list nat) :
  pending w0 = [] ->
  run h (c :: sched) (add_handler h todo w0) =
  let p := Path.join [DATA_DIR; uuid_v4 h (drawn w0)] in
  {| fs := snd (writeFile h (fs w0) p todo "ascii");
     pending := [];
     replies := replies w0
                ++ [match fst (writeFile h (fs w0) p todo "ascii") with
                    | Some _ => "Oh no... I couldn't write the todo file..."
                    | None => "OK! I added " ++ todo ++ " to the todo list"
                    end];
     issued := issued w0 ++ [SWriteFile p todo "ascii"];
     drawn := S (drawn w0) |}.
Proof.
  intros Hq. unfold add_handler, add_actions. rewrite run_cons.
  erewrite step_single by (cbn; rewrite Hq; reflexivity).
  cbn [exec_actions fold_left exec_action fs replies issued drawn complete
       syscall_of].
  destruct (writeFile h (fs w0) _ todo "ascii") as [[e|] fs1];
    cbn [fst snd fold_left exec_action fs pending replies issued drawn];
    now rewrite run_idle.
Qed.

Lemma run_remove (h : host) (w0 : world) (id : string) (c : nat)
    (sched : list nat) :
  pending w0 = [] ->
  run h (c :: sched) (exec_actions (remove_handler id) w0) =
  let p := Path.join [DATA_DIR; id] in
  {| fs := snd (unlink h (fs w0) p);
     pending := [];
     replies := replies w0
                ++ [match fst (unlink h (fs w0) p) with
                    | Some _ => "Couldn't find " ++ id
                    | None => "OK! Removed " ++ id
                    end];
     issued := issued w0 ++ [SUnlink p];
     drawn := drawn w0 |}.
Proof.
  intros Hq. unfold remove_handler. rewrite run_cons.
  erewrite step_single by (cbn; rewrite Hq; reflexivity).
  cbn [exec_actions fold_left exec_action fs replies issued drawn complete
       syscall_of].
  destruct (unlink h (fs w0) _) as [[e|] fs1];
    cbn [fst snd fold_left exec_action fs pending replies issued drawn];
    now rewrite run_idle.
Qed.

Lemma respond_remove_match (text id : string) :
  Regex.exec text = Some id -> respond_remove text = remove_handler id.
Proof. intros H. unfold respond_remove. now rewrite H. Qed.

(** What the pattern lets through is a plain name. *)
Lemma matched_id_plain (text id : string) :
  Regex.exec text = Some id ->
  Path.plain_name id /\ has_char "." id = false.
Proof.
  intros (pre & suf & _ & Hlen & Hall & _)%RegexFacts.exec_iff.
  apply PathFacts.id_plain_name; [exact Hlen|].
  eapply all_chars_impl; [|exact Hall].
  intros c. now rewrite RegexFacts.id_char_hex_or_hyphen.
Qed.

Lemma exec_ends_with_id (text id : string) :
  Regex.exec text = Some id <-> Regex.ends_with_id text id.
Proof.
  rewrite RegexFacts.exec_iff. unfold Regex.ends_with_id.
  split; intros (pre & suf & Htext & Hlen & Hall & Hsuf); exists pre, suf;
    repeat split; try assumption;
    (eapply all_chars_impl; [|exact Hall]); intros c;
    now rewrite RegexFacts.id_char_hex_or_hyphen.
Qed.

(** *** Dispatch of the remove command *)

(** C1, as the code has it.  The remove handler runs only on an
    identifier of 36 characters, each a hexadecimal digit or a hyphen
    in any arrangement, that the text ends with, followed by " is done"
    in any case: whenever the pattern matches, its group is such an
    identifier, and whatever runs is the remove handler on it.  On a
    text that does not end so, the remove handler does not run. *)
Theorem remove_dispatch_charset (text : string) :
  (forall id, Regex.exec text = Some id -> Regex.ends_with_id text id)
  /\ ((forall id, ~ Regex.ends_with_id text id) -> respond_remove text = [])
  /\ (respond_remove text = []
      \/ exists id, Regex.ends_with_id text id
                    /\ respond_remove text = remove_handler id).
Proof.
  split; [|split].
  - intros id Hid. now apply exec_ends_with_id.
  - intros Hnone. unfold respond_remove.
    destruct (Regex.exec text) as [id|] eqn:H; [|reflexivity].
    apply exec_ends_with_id in H. now destruct (Hnone id).
  - unfold respond_remove.
    destruct (Regex.exec text) as [id|] eqn:H; [|now left].
    right. exists id. split; [now apply exec_ends_with_id | reflexivity].
Qed.

(** C1, as the specification has it, fails: thirty-six hexadecimal
    digits with no hyphen among them are not of the 8-4-4-4-12 shape,
    and the remove handler runs on them. *)
Lemma remove_dispatch_not_uuid_shaped :
  respond_remove "hubot deadbeefdeadbeefdeadbeefdeadbeefdead is done"
  = remove_handler "deadbeefdeadbeefdeadbeefdeadbeefdead"
  /\ Regex.is_uuid_shape "deadbeefdeadbeefdeadbeefdeadbeefdead" = false.
Proof.
  split; [|reflexivity]. apply respond_remove_match. reflexivity.
Qed.

(** C10. Whatever text reaches the remove handler, the identifier has
    neither a path separator nor a dot, so the path given to
    [fs.unlink] is the entry of that name in the storage directory:
    ["todos/"] followed by the identifier.  That call is the only one
    made, and no other path of the file system changes. *)
Theorem remove_path_confined (h : host) (fs0 : gmap string node)
    (text id : string) (sched : list nat) :
  Regex.exec text = Some id ->
  let w := run h sched (exec_actions (respond_remove text) (init fs0)) in
  has_char "/" id = false /\ has_char "." id = false
  /\ Path.join [DATA_DIR; id] = "todos/" ++ id
  /\ Path.is_direct_child DATA_DIR (Path.join [DATA_DIR; id]) = true
  /\ issued w = [SUnlink ("todos/" ++ id)]
  /\ forall p : string, p <> "todos/" ++ id -> fs w !! p = fs0 !! p.
Proof.
  intros Hexec w.
  destruct (matched_id_plain text id Hexec) as [Hplain Hdot].
  pose proof (PathFacts.join_entry id Hplain) as Hjoin.
  change (Path.join [DATA_DIR; id] = "todos/" ++ id) in Hjoin.
  split; [apply Hplain|]. split; [exact Hdot|]. split; [exact Hjoin|].
  split; [rewrite Hjoin; now apply PathFacts.is_direct_child_entry|].
  subst w. rewrite (respond_remove_match text id Hexec).
  destruct sched as [|c sched].
  - cbn. rewrite Hjoin. auto.
  - rewrite run_remove by reflexivity. cbn [init fs issued]. rewrite Hjoin.
    split; [reflexivity|]. intros p Hp.
    destruct (fst (unlink h fs0 ("todos/" ++ id))) as [e|] eqn:Hres.
    + now rewrite (unlink_error _ _ _ _ Hres).
    + rewrite (unlink_ok _ _ _ Hres). now apply lookup_delete_ne.
Qed.

Lemma remove_path_confined_witness :
  Regex.exec "hubot ABCDEF01-2345-6789-abcd-ef0123456789 is done"
  = Some "ABCDEF01-2345-6789-abcd-ef0123456789"
  /\ issued (run Demo.sound_host [0]
               (exec_actions
                  (respond_remove "hubot ABCDEF01-2345-6789-abcd-ef0123456789 is done")
                  (init Demo.store)))
     = [SUnlink "todos/ABCDEF01-2345-6789-abcd-ef0123456789"].
Proof.
  assert (Hexec : Regex.exec "hubot ABCDEF01-2345-6789-abcd-ef0123456789 is done"
                  = Some "ABCDEF01-2345-6789-abcd-ef0123456789") by reflexivity.
  split; [exact Hexec|].
  exact (proj1 (proj2 (proj2 (proj2 (proj2
    (remove_path_confined Demo.sound_host Demo.store _ _ [0] Hexec)))))).
Defined.

(** *** Outcome of the remove command *)

(** C6. For every identifier that reaches the remove handler, one
    [fs.unlink] of its file is made.  If the call reports an error,
    whichever it is, the reply is "Couldn't find <id>" and the file
    system is as before; a missing file and a fault of the host are two
    such errors.  If the call succeeds, the reply is "OK! Removed <id>"
    and the file system is the former one without that file. *)
Theorem remove_outcome (h : host) (fs0 : gmap string node) (text id : string)
    (sched : list nat) :
  Regex.exec text = Some id -> sched <> [] ->
  let p := Path.join [DATA_DIR; id] in
  let w := run h sched (exec_actions (respond_remove text) (init fs0)) in
  pending w = [] /\ issued w = [SUnlink p]
  /\ match fst (unlink h fs0 p) with
     | Some _ => replies w = ["Couldn't find " ++ id] /\ fs w = fs0
     | None => replies w = ["OK! Removed " ++ id] /\ fs w = delete p fs0
     end
  /\ (fs0 !! p = None -> replies w = ["Couldn't find " ++ id])
  /\ (forall e, fault h (SUnlink p) = Some e ->
                replies w = ["Couldn't find " ++ id]).
Proof.
  intros Hexec Hsched p w. destruct sched as [|c sched]; [congruence|].
  subst w. rewrite (respond_remove_match text id Hexec).
  rewrite run_remove by reflexivity. fold p.
  cbn [init fs pending replies issued app].
  split; [reflexivity|]. split; [reflexivity|].
  destruct (fst (unlink h fs0 p)) as [e|] eqn:Hres.
  - rewrite (unlink_error _ _ _ _ Hres). auto.
  - rewrite (unlink_ok _ _ _ Hres). split; [auto|]. split.
    + intros Hmiss. now destruct (unlink_missing h fs0 p Hmiss).
    + intros e He. rewrite (unlink_fault h fs0 p e He) in Hres. discriminate.
Qed.

Lemma remove_outcome_witness :
  Regex.exec "hubot 7c9e6679-7425-40de-944b-e07fc1f90ae7 is done"
  = Some "7c9e6679-7425-40de-944b-e07fc1f90ae7"
  /\ replies (run Demo.sound_host [0]
                (exec_actions
                   (respond_remove "hubot 7c9e6679-7425-40de-944b-e07fc1f90ae7 is done")
                   (init Demo.store)))
     = ["OK! Removed 7c9e6679-7425-40de-944b-e07fc1f90ae7"].
Proof.
  assert (Hexec : Regex.exec "hubot 7c9e6679-7425-40de-944b-e07fc1f90ae7 is done"
                  = Some "7c9e6679-7425-40de-944b-e07fc1f90ae7") by reflexivity.
  split; [exact Hexec|].
  destruct (remove_outcome Demo.sound_host Demo.store _ _ [0] Hexec)
    as (_ & _ & Hres & _); [discriminate|].
  exact (proj1 Hres).
Defined.

(** A fault of the host on a file that is there reads as "not found". *)
Example remove_fault_reads_as_missing :
  let w := run Demo.no_unlink_host [0]
             (exec_actions
                (respond_remove "hubot 7c9e6679-7425-40de-944b-e07fc1f90ae7 is done")
                (init Demo.store)) in
  replies w = ["Couldn't find 7c9e6679-7425-40de-944b-e07fc1f90ae7"]
  /\ fs w = Demo.store.
Proof. split; reflexivity. Qed.

(** *** Outcome of the add command *)

Lemma uuid_shape_plain (ID : string) :
  Regex.is_uuid_shape ID = true -> Path.plain_name ID.
Proof.
  intros [Hlen Hall]%RegexFacts.fits_template_chars.
  now apply PathFacts.id_plain_name.
Qed.




(** C8. For every text, the add command draws an identifier from
    [uuid.v4] and writes, with the encoding ['ascii'], the text to the
    entry of the storage directory named by that identifier and nothing
    more.  When the write succeeds the file holds one byte per
    character of the text, and the reply is
    "OK! I added <text> to the todo list". *)
Theorem add_writes_item (h : host) (fs0 : gmap string node) (todo : string)
    (sched : list nat) :
  sched <> [] ->
  Regex.is_uuid_shape (uuid_v4 h 0) = true ->
  let ID := uuid_v4 h 0 in
  let w := run h sched (add_handler h todo (init fs0)) in
  drawn w = 1
  /\ issued w = [SWriteFile ("todos/" ++ ID) todo "ascii"]
  /\ Path.child_name DATA_DIR ("todos/" ++ ID) = Some ID
  /\ (fst (writeFile h fs0 ("todos/" ++ ID) todo "ascii") = None ->
      fs w = <["todos/" ++ ID := File (list_byte_of_string todo)]> fs0
      /\ replies w = ["OK! I added " ++ todo ++ " to the todo list"]).
Proof.
  intros Hsched Hshape ID w. destruct sched as [|c sched]; [congruence|].
  pose proof (uuid_shape_plain ID Hshape) as Hplain.
  pose proof (PathFacts.join_entry ID Hplain) as Hjoin.
  change (Path.join [DATA_DIR; uuid_v4 h 0] = "todos/" ++ ID) in Hjoin.
  subst w. rewrite run_add by reflexivity.
  cbn [init fs pending replies issued drawn app]. rewrite Hjoin.
  split; [reflexivity|]. split; [reflexivity|].
  split; [now apply PathFacts.child_name_entry|].
  intros Hres. rewrite Hres, (writeFile_ok _ _ _ _ _ Hres). auto.
Qed.

Lemma add_writes_item_witness :
  fs (run Demo.sound_host [0]
        (add_handler Demo.sound_host "buy milk" (init Demo.empty_store)))
  = <["todos/110ec58a-a0f2-4ac4-8393-c866d813b8d1"
       := File (list_byte_of_string "buy milk")]> Demo.empty_store
  /\ replies (run Demo.sound_host [0]
                (add_handler Demo.sound_host "buy milk" (init Demo.empty_store)))
     = ["OK! I added buy milk to the todo list"].
Proof.
  destruct (add_writes_item Demo.sound_host Demo.empty_store "buy milk" [0])
    as (_ & _ & _ & Hres); [discriminate | reflexivity |].
  apply Hres. reflexivity.
Defined.

(** *** Add, then remove *)

(** C2. Add a text, then remove the identifier that add generated.
    When the name of that identifier was not in use and the host lets
    the removal through, the file system after the two commands is the
    one before them, whether the write succeeded, failed before the
    file was opened, or failed after.  An identifier of the shape
    [uuid.v4] gives, followed by " is done", is matched by the pattern
    of the remove command from its first character, with the identifier
    as its group. *)
Theorem add_remove_roundtrip (h : host) (fs0 : gmap string node)
    (todo : string) (sched1 sched2 : list nat) :
  sched1 <> [] -> sched2 <> [] ->
  fs0 !! Path.join [DATA_DIR; uuid_v4 h 0] = None ->
  fault h (SUnlink (Path.join [DATA_DIR; uuid_v4 h 0])) = None ->
  let ID := uuid_v4 h 0 in
  let w1 := run h sched1 (add_handler h todo (init fs0)) in
  let w2 := run h sched2 (exec_actions (remove_handler ID) w1) in
  fs w2 = fs0 /\ pending w2 = []
  /\ (fst (writeFile h fs0 (Path.join [DATA_DIR; ID]) todo "ascii") = None ->
      fs w1 = <[Path.join [DATA_DIR; ID] := File (Buffer_from todo "ascii")]> fs0
      /\ replies w2 = ["OK! I added " ++ todo ++ " to the todo list";
                       "OK! Removed " ++ ID])
  /\ (Regex.is_uuid_shape ID = true ->
      Regex.match_here (ID ++ " is done") = Some ID).
Proof.
  intros Hs1 Hs2 Hfresh Hfault ID w1 w2.
  destruct sched1 as [|c1 sched1]; [congruence|].
  destruct sched2 as [|c2 sched2]; [congruence|].
  assert (Hhere : Regex.is_uuid_shape ID = true ->
                  Regex.match_here (ID ++ " is done") = Some ID).
  { intros [Hlen Hall]%RegexFacts.fits_template_chars.
    apply RegexFacts.match_here_iff. exists " is done". repeat split; auto.
    eapply all_chars_impl; [|exact Hall].
    intros c. now rewrite RegexFacts.id_char_hex_or_hyphen. }
  subst w2 w1. rewrite run_add by reflexivity.
  rewrite run_remove by reflexivity.
  cbn [init fs pending replies issued drawn app]. subst ID.
  set (p := Path.join [DATA_DIR; uuid_v4 h 0]) in *.
  destruct (fst (writeFile h fs0 p todo "ascii")) as [e|] eqn:Hres.
  - destruct (writeFile_failed _ _ _ _ _ _ Hres) as [->|[n ->]].
    + unfold unlink. rewrite Hfault, Hfresh. cbn [fst snd].
      split; [reflexivity|]. split; [reflexivity|].
      split; [discriminate | exact Hhere].
    + unfold unlink. rewrite Hfault, lookup_insert_eq. cbn [fst snd].
      split; [now apply delete_insert_id|]. split; [reflexivity|].
      split; [discriminate | exact Hhere].
  - rewrite (writeFile_ok _ _ _ _ _ Hres).
    unfold unlink. rewrite Hfault, lookup_insert_eq. cbn [fst snd].
    split; [now apply delete_insert_id|]. split; [reflexivity|].
    split; [auto | exact Hhere].
Qed.

(** The condition on the name matters: on a name in use the write
    replaces the file and the removal then takes it away. *)
Example add_remove_on_used_name :
  let w1 := run Demo.sound_host [0]
              (add_handler Demo.sound_host "feed the cat" (init Demo.used_store)) in
  let w2 := run Demo.sound_host [0]
              (exec_actions
                 (remove_handler "110ec58a-a0f2-4ac4-8393-c866d813b8d1") w1) in
  Demo.used_store !! "todos/110ec58a-a0f2-4ac4-8393-c866d813b8d1"
  = Some (File (list_byte_of_string "water plants"))
  /\ fs w2 !! "todos/110ec58a-a0f2-4ac4-8393-c866d813b8d1" = None.
Proof. split; reflexivity. Qed.

Lemma add_remove_roundtrip_witness :
  fs (run Demo.sound_host [0]
        (exec_actions (remove_handler "110ec58a-a0f2-4ac4-8393-c866d813b8d1")
           (run Demo.sound_host [0]
              (add_handler Demo.sound_host "feed the cat" (init Demo.store)))))
  = Demo.store
  /\ fs (run Demo.full_disk_host [0]
           (exec_actions (remove_handler "110ec58a-a0f2-4ac4-8393-c866d813b8d1")
              (run Demo.full_disk_host [0]
                 (add_handler Demo.full_disk_host "feed the cat" (init Demo.store)))))
     = Demo.store.
Proof.
  split.
  - apply (add_remove_roundtrip Demo.sound_host Demo.store "feed the cat" [0] [0]);
      (discriminate || reflexivity).
  - apply (add_remove_roundtrip Demo.full_disk_host Demo.store "feed the cat" [0] [0]);
      (discriminate || reflexivity).
Defined.

End CommandFacts.

(** ** The patterns of the add and list commands *)

Module PatternFacts.
Import Regex RegexFacts Commands.

(** Two ways of cutting one text: the longer tail ends with the shorter. *)
Lemma app_tail_split (a s b t : string) :
  a ++ s = b ++ t -> String.length s <= String.length t ->
  exists c : string, t = c ++ s /\ a = b ++ c.
Proof.
  revert b. induction a as [|x a IH]; intros b H Hlen.
  - cbn in H. subst s. rewrite string_length_app in Hlen.
    destruct b; [|cbn in Hlen; lia]. now exists "".
  - destruct b as [|y b].
    + cbn in H. subst t. now exists (String x a).
    + cbn in H. injection H as -> H.
      destruct (IH b H Hlen) as (c & -> & ->). now exists c.
Qed.

Lemma string_length_zero (s : string) : String.length s = 0 -> s = "".
Proof. now destruct s. Qed.

Lemma add_tail_iff (s : string) :
  add_tail s = true <-> eq_i " to my todo list" s = true.
Proof.
  unfold add_tail. split.
  - destruct (match_literal_i " to my todo list" s) as [[|? ?]|] eqn:H;
      try discriminate.
    intros _. apply match_literal_i_sound in H as (m & -> & Hm).
    now rewrite string_app_empty_r.
  - intros H. rewrite <- (string_app_empty_r s).
    now rewrite (match_literal_i_complete _ _ "" H).
Qed.

Lemma match_dot_star_sound (s m : string) :
  match_dot_star s = Some m ->
  exists suf : string,
    s = m ++ suf /\ all_chars dot m = true /\ eq_i " to my todo list" suf = true.
Proof.
  revert m. induction s as [|c s IH]; intros m; cbn [match_dot_star].
  - destruct (add_tail "") eqn:Ht; [|discriminate].
    intros [= <-]. exists "". now apply add_tail_iff in Ht.
  - assert (Hstop : (if add_tail (String c s) then Some "" else None) = Some m ->
                    exists suf : string,
                      String c s = m ++ suf /\ all_chars dot m = true
                      /\ eq_i " to my todo list" suf = true).
    { destruct (add_tail (String c s)) eqn:Ht; [|discriminate].
      intros [= <-]. exists (String c s). now apply add_tail_iff in Ht. }
    destruct (dot c) eqn:Hc; [|exact Hstop].
    destruct (match_dot_star s) as [m'|] eqn:Hs; [|exact Hstop].
    intros [= <-]. destruct (IH m' eq_refl) as (suf & -> & Hall & Hsuf).
    exists suf. cbn [all_chars]. now rewrite Hc, Hall.
Qed.

Lemma match_dot_star_length (s m : string) :
  match_dot_star s = Some m -> String.length s = String.length m + 16.
Proof.
  intros (suf & -> & _ & Hsuf)%match_dot_star_sound.
  now rewrite string_length_app, (eq_i_length _ _ Hsuf).
Qed.

Lemma match_dot_star_complete (m suf : string) :
  all_chars dot m = true -> eq_i " to my todo list" suf = true ->
  match_dot_star (m ++ suf) = Some m.
Proof.
  intros Hall Hsuf. induction m as [|c m IH].
  - cbn [String.append]. pose proof (eq_i_length _ _ Hsuf) as Hlen.
    destruct suf as [|c s]; [discriminate|]. cbn [match_dot_star].
    rewrite (proj2 (add_tail_iff _) Hsuf).
    destruct (match_dot_star s) as [m'|] eqn:Hs.
    + apply match_dot_star_length in Hs. cbn in Hlen. lia.
    + now destruct (dot c).
  - cbn [all_chars] in Hall. apply andb_true_iff in Hall as [Hc Hm].
    cbn [String.append match_dot_star]. now rewrite Hc, (IH Hm).
Qed.

(** The add pattern matches at the start of [s] exactly when [s] is
    ["add "], a text without line terminator and [" to my todo list"],
    the two literals in any case; the group is the text between. *)
Lemma add_match_here_iff (s todo : string) :
  add_match_here s = Some todo <->
  exists cmd suf : string,
    s = cmd ++ todo ++ suf /\ eq_i "add " cmd = true /\
    all_chars dot todo = true /\ eq_i " to my todo list" suf = true.
Proof.
  unfold add_match_here. split.
  - destruct (match_literal_i "add " s) as [r|] eqn:Hcmd; [|discriminate].
    intros (suf & -> & Hall & Hsuf)%match_dot_star_sound.
    apply match_literal_i_sound in Hcmd as (cmd & -> & Hcmd).
    now exists cmd, suf.
  - intros (cmd & suf & -> & Hcmd & Hall & Hsuf).
    rewrite (match_literal_i_complete _ _ _ Hcmd).
    now apply match_dot_star_complete.
Qed.

Lemma add_exec_unfold (text : string) :
  add_exec text =
  match add_match_here text with
  | Some todo => Some todo
  | None => match text with EmptyString => None | String _ t => add_exec t end
  end.
Proof. destruct text; reflexivity. Qed.

Lemma show_match_here_iff (s : string) :
  show_match_here s = true <-> eq_i "show my todo list" s = true.
Proof.
  unfold show_match_here. split.
  - destruct (match_literal_i "show my todo list" s) as [[|? ?]|] eqn:H;
      try discriminate.
    intros _. apply match_literal_i_sound in H as (m & -> & Hm).
    now rewrite string_app_empty_r.
  - intros H. rewrite <- (string_app_empty_r s).
    now rewrite (match_literal_i_complete _ _ "" H).
Qed.

Lemma show_exec_iff (text : string) :
  show_exec text = true <->
  exists pre suf : string,
    text = pre ++ suf /\ eq_i "show my todo list" suf = true.
Proof.
  split.
  - induction text as [|c text IH]; cbn [show_exec].
    + rewrite orb_false_r. intros H%show_match_here_iff. now exists "", "".
    + intros [H|H]%orb_true_iff.
      * apply show_match_here_iff in H. now exists "", (String c text).
      * destruct (IH H) as (pre & suf & -> & Hsuf). now exists (String c pre), suf.
  - intros (pre & suf & -> & Hsuf). induction pre as [|c pre IH].
    + cbn [String.append]. apply show_match_here_iff in Hsuf.
      destruct suf; cbn [show_exec]; now rewrite Hsuf.
    + cbn [String.append show_exec]. rewrite IH. apply orb_true_r.
Qed.

(** A text the add pattern matches ends with its closing literal. *)
Lemma add_exec_tail (text todo : string) :
  add_exec text = Some todo ->
  exists a suf : string,
    text = a ++ suf /\ eq_i " to my todo list" suf = true.
Proof.
  induction text as [|c text IH]; rewrite add_exec_unfold.
  - discriminate.
  - destruct (add_match_here (String c text)) as [t|] eqn:H.
    + intros _. apply add_match_here_iff in H as (cmd & suf & H & _ & _ & Hsuf).
      exists (cmd ++ t), suf. now rewrite string_app_assoc.
    + intros (a & suf & -> & Hsuf)%IH. now exists (String c a), suf.
Qed.

(** The item of the add command.  When the add pattern matches, the
    text is some prefix, ["add "], the item and [" to my todo list"] at
    the very end, the two literals in any case, and the item has no
    line feed and no carriage return. *)
Theorem add_item_captured (text todo : string) :
  add_exec text = Some todo ->
  exists pre cmd suf : string,
    text = pre ++ cmd ++ todo ++ suf /\ eq_i "add " cmd = true /\
    all_chars dot todo = true /\ eq_i " to my todo list" suf = true.
Proof.
  revert todo. induction text as [|c text IH]; intros todo;
    rewrite add_exec_unfold.
  - discriminate.
  - destruct (add_match_here (String c text)) as [t|] eqn:H.
    + intros [= ->]. apply add_match_here_iff in H as (cmd & suf & H & ?).
      exists "", cmd, suf. auto.
    + intros (pre & cmd & suf & -> & ?)%IH. exists (String c pre), cmd, suf. auto.
Qed.

Lemma add_item_captured_witness :
  add_exec "hubot Add buy milk To My Todo List" = Some "buy milk"
  /\ exists pre cmd suf : string,
       "hubot Add buy milk To My Todo List" = pre ++ cmd ++ "buy milk" ++ suf
       /\ eq_i "add " cmd = true /\ all_chars dot "buy milk" = true
       /\ eq_i " to my todo list" suf = true.
Proof.
  split; [reflexivity|].
  apply (add_item_captured "hubot Add buy milk To My Todo List" "buy milk").
  reflexivity.
Defined.

(** Endings in conflict: a text cannot end, up to case, with two
    literals whose tails of the shorter one's length differ. *)
Lemma eq_i_join (a b s : string) :
  eq_i a s = true -> eq_i b s = true -> eq_i a b = true.
Proof.
  revert b s. induction a as [|x a IH]; intros [|y b] [|z s]; cbn [eq_i];
    try discriminate; [reflexivity|].
  intros [Hx Ha]%andb_true_iff [Hy Hb]%andb_true_iff.
  rewrite (IH _ _ Ha Hb), andb_true_r. unfold char_eq_i in *.
  apply Ascii.eqb_eq in Hx, Hy. apply Ascii.eqb_eq. congruence.
Qed.

Lemma eq_i_app_tail (l1 l2 c s : string) :
  String.length l1 = String.length c ->
  eq_i (l1 ++ l2) (c ++ s) = true -> eq_i l2 s = true.
Proof.
  revert c. induction l1 as [|x l1 IH]; intros [|y c]; cbn [String.length];
    try discriminate; [auto|].
  intros [= Hlen]. cbn [String.append eq_i].
  intros [_ H]%andb_true_iff. now apply (IH c).
Qed.

Lemma tail_conflict (K L1 L2 a s b t : string) :
  a ++ s = b ++ t -> eq_i K s = true -> eq_i (L1 ++ L2) t = true ->
  String.length K = String.length L2 -> eq_i K L2 = true.
Proof.
  intros H HK HL Hlen.
  pose proof (eq_i_length _ _ HK) as Hs.
  pose proof (eq_i_length _ _ HL) as Ht. rewrite string_length_app in Ht.
  destruct (app_tail_split _ _ _ _ H) as (c & -> & _); [lia|].
  rewrite string_length_app in Ht.
  apply eq_i_app_tail in HL; [|lia].
  exact (eq_i_join _ _ _ HK HL).
Qed.

Lemma show_excludes_add (text : string) :
  show_exec text = true -> add_exec text = None.
Proof.
  intros (a & t & -> & Ht)%show_exec_iff.
  destruct (add_exec (a ++ t)) as [todo|] eqn:Hadd; [|reflexivity].
  apply add_exec_tail in Hadd as (pre & suf & H & Hsuf). symmetry in H.
  pose proof (tail_conflict " to my todo list" "s" "how my todo list"
                _ _ _ _ H Hsuf Ht eq_refl) as Hc.
  discriminate Hc.
Qed.

Lemma show_excludes_remove (text : string) :
  show_exec text = true -> Regex.exec text = None.
Proof.
  intros (a & t & -> & Ht)%show_exec_iff.
  destruct (Regex.exec (a ++ t)) as [id|] eqn:Hrm; [|reflexivity].
  apply exec_iff in Hrm as (pre & suf & H & _ & _ & Hsuf).
  rewrite <- !string_app_assoc in H. symmetry in H.
  pose proof (tail_conflict " is done" "show my t" "odo list"
                _ _ _ _ H Hsuf Ht eq_refl) as Hc.
  discriminate Hc.
Qed.

Lemma add_excludes_remove (text todo : string) :
  add_exec text = Some todo -> Regex.exec text = None.
Proof.
  intros (a & t & -> & Ht)%add_exec_tail.
  destruct (Regex.exec _) as [id|] eqn:Hrm; [|reflexivity].
  apply exec_iff in Hrm as (pre' & suf & H & _ & _ & Hsuf).
  rewrite <- !string_app_assoc in H. symmetry in H.
  pose proof (tail_conflict " is done" " to my t" "odo list"
                _ _ _ _ H Hsuf Ht eq_refl) as Hc.
  discriminate Hc.
Qed.

End PatternFacts.

(** ** A message reaching the script *)

Module DispatchFacts.
Import Fs Todos Commands RegexFacts PatternFacts.

Lemma spaces_sound (s r : string) :
  In r (spaces s) ->
  exists ws : string, s = ws ++ r /\ all_chars is_space ws = true.
Proof.
  induction s as [|c s IH]; cbn [spaces].
  - intros [<-|[]]. now exists "".
  - destruct (is_space c) eqn:Hc.
    + intros [H|[<-|[]]]%in_app_or.
      * destruct (IH H) as (ws & -> & Hws). exists (String c ws).
        cbn [all_chars String.append]. now rewrite Hc, Hws.
      * now exists "".
    + intros [<-|[]]. now exists "".
Qed.

Lemma spaces_complete (ws r : string) :
  all_chars is_space ws = true -> In r (spaces (ws ++ r)).
Proof.
  induction ws as [|c ws IH]; cbn [all_chars String.append].
  - intros _. destruct r as [|d r]; cbn [spaces]; [now left|].
    destruct (is_space d); [apply in_or_app; right|]; now left.
  - intros [Hc Hws]%andb_true_iff. cbn [spaces]. rewrite Hc.
    apply in_or_app. left. now apply IH.
Qed.

Lemma optional_iff (p : ascii -> bool) (s r : string) :
  In r (optional p s) <->
  r = s \/ exists c : ascii, p c = true /\ s = String c r.
Proof.
  unfold optional. destruct s as [|c s].
  - split; [intros [<-|[]]; now left|].
    intros [->|(c & _ & H)]; [now left | discriminate].
  - destruct (p c) eqn:Hc; split.
    + intros [<-|[<-|[]]]; [right; now exists c | now left].
    + intros [->|(d & _ & [= -> ->])]; [right; now left | now left].
    + intros [<-|[]]. now left.
    + intros [->|(d & Hd & [= -> ->])]; [now left | congruence].
Qed.

Lemma literal_i_iff (lit s r : string) :
  In r (literal_i lit s) <->
  exists m : string, s = m ++ r /\ Regex.eq_i lit m = true.
Proof.
  unfold literal_i. split.
  - destruct (Regex.match_literal_i lit s) as [r'|] eqn:H; [|intros []].
    intros [<-|[]]. now apply match_literal_i_sound.
  - intros (m & -> & Hm). rewrite (match_literal_i_complete _ _ r Hm). now left.
Qed.

(** The remainders the engine finds are those of the texts that address
    the robot. *)
Lemma addressed_iff (name text r : string) :
  In r (addressed name text) <-> addresses name text r.
Proof.
  unfold addressed, addresses. rewrite in_flat_map. split.
  - intros (r4 & H4 & H5). apply in_flat_map in H4 as (r3 & H3 & H4).
    apply in_flat_map in H3 as (r2 & H2 & H3).
    apply in_flat_map in H2 as (r1 & H1 & H2).
    apply spaces_sound in H1 as (ws1 & -> & Hws1).
    apply spaces_sound in H5 as (ws2 & -> & Hws2).
    apply literal_i_iff in H3 as (nm & -> & Hnm).
    apply optional_iff in H4 as [<-|(d & Hd & ->)];
      apply optional_iff in H2 as [<-|(c & Hc & ->)].
    + exists ws1, "", nm, "", ws2. cbn [String.append]. auto 10.
    + exists ws1, "@", nm, "", ws2. apply Ascii.eqb_eq in Hc. subst c.
      cbn [String.append]. auto 10.
    + exists ws1, "", nm, (String d ""), ws2. cbn [String.append].
      repeat split; auto. unfold is_colon_or_comma in Hd.
      apply orb_true_iff in Hd as [Hd|Hd]; apply Ascii.eqb_eq in Hd; subst; auto.
    + exists ws1, "@", nm, (String d ""), ws2. apply Ascii.eqb_eq in Hc. subst c.
      cbn [String.append]. repeat split; auto. unfold is_colon_or_comma in Hd.
      apply orb_true_iff in Hd as [Hd|Hd]; apply Ascii.eqb_eq in Hd; subst; auto.
  - intros (ws1 & a & nm & sep & ws2 & -> & Hws1 & Ha & Hnm & Hsep & Hws2).
    exists (ws2 ++ r). split; [|now apply spaces_complete].
    apply in_flat_map. exists (sep ++ ws2 ++ r). split.
    + apply in_flat_map. exists (nm ++ sep ++ ws2 ++ r). split.
      * apply in_flat_map. exists (a ++ nm ++ sep ++ ws2 ++ r).
        split; [now apply spaces_complete|].
        apply optional_iff. destruct Ha as [->| ->]; [now left|].
        right. now exists "@"%char.
      * apply literal_i_iff. now exists nm.
    + apply optional_iff. destruct Hsep as [->|[->| ->]]; [now left| |];
        right; [now exists ":"%char | now exists ","%char].
Qed.

Lemma addressed_suffix (name text r : string) :
  In r (addressed name text) -> exists pre : string, text = pre ++ r.
Proof.
  intros (ws1 & a & nm & sep & ws2 & -> & _)%addressed_iff.
  exists (ws1 ++ a ++ nm ++ sep ++ ws2). now rewrite !string_app_assoc.
Qed.

Lemma first_match_some {A : Type} (f : string -> option A) (l : list string) (x : A) :
  first_match f l = Some x -> exists r : string, In r l /\ f r = Some x.
Proof.
  induction l as [|r l IH]; cbn [first_match]; [discriminate|].
  destruct (f r) as [y|] eqn:Hr.
  - intros [= ->]. exists r. split; [now left | exact Hr].
  - intros (r' & Hin & Hr')%IH. exists r'. split; [now right | exact Hr'].
Qed.


(** A text the framework's pattern matches is one the script's pattern
    matches by itself. *)
Lemma respond_done_exec (name text id : string) :
  respond_match name Regex.match_here text = Some id ->
  Regex.exec text = Some id.
Proof.
  intros (r & Hr & Hid)%first_match_some.
  apply addressed_suffix in Hr as (pre & ->).
  apply match_here_iff in Hid as (suf & -> & Hlen & Hall & Hsuf).
  apply exec_iff. now exists pre, suf.
Qed.

Lemma respond_show_exec (name text : string) (u : unit) :
  respond_match name show_here text = Some u -> show_exec text = true.
Proof.
  intros (r & Hr & Hu)%first_match_some.
  apply addressed_suffix in Hr as (pre & ->).
  unfold show_here in Hu. destruct (show_match_here r) eqn:Hs; [|discriminate].
  apply show_exec_iff. exists pre, r. split; [reflexivity|].
  now apply show_match_here_iff.
Qed.

Lemma add_exec_app (pre r todo : string) :
  add_match_here r = Some todo ->
  exists todo' : string, add_exec (pre ++ r) = Some todo'.
Proof.
  intros Hr. induction pre as [|c pre IH]; rewrite add_exec_unfold.
  - cbn [String.append]. rewrite Hr. eauto.
  - destruct (add_match_here (String c pre ++ r)); [eauto | exact IH].
Qed.

Lemma respond_add_exec (name text todo : string) :
  respond_match name add_match_here text = Some todo ->
  exists todo' : string, add_exec text = Some todo'.
Proof.
  intros (r & Hr & Hid)%first_match_some.
  apply addressed_suffix in Hr as (pre & ->).
  exact (add_exec_app pre r todo Hid).
Qed.

(** When one listener matches, the other two do not. *)
Lemma show_match_alone (name text : string) (u : unit) :
  respond_match name show_here text = Some u ->
  respond_match name add_match_here text = None
  /\ respond_match name Regex.match_here text = None.
Proof.
  intros Hs%respond_show_exec. split.
  - destruct (respond_match name add_match_here text) eqn:Ha; [|reflexivity].
    apply respond_add_exec in Ha as (todo' & Ha).
    rewrite (show_excludes_add _ Hs) in Ha. discriminate.
  - destruct (respond_match name Regex.match_here text) eqn:Hr; [|reflexivity].
    apply respond_done_exec in Hr.
    rewrite (show_excludes_remove _ Hs) in Hr. discriminate.
Qed.

Lemma add_match_alone (name text todo : string) :
  respond_match name add_match_here text = Some todo ->
  respond_match name show_here text = None
  /\ respond_match name Regex.match_here text = None.
Proof.
  intros Ha. pose proof (respond_add_exec _ _ _ Ha) as (todo' & Ha'). split.
  - destruct (respond_match name show_here text) eqn:Hs; [|reflexivity].
    apply respond_show_exec in Hs.
    rewrite (show_excludes_add _ Hs) in Ha'. discriminate.
  - destruct (respond_match name Regex.match_here text) eqn:Hr; [|reflexivity].
    apply respond_done_exec in Hr.
    rewrite (add_excludes_remove _ _ Ha') in Hr. discriminate.
Qed.

Lemma done_match_alone (name text id : string) :
  respond_match name Regex.match_here text = Some id ->
  respond_match name show_here text = None
  /\ respond_match name add_match_here text = None.
Proof.
  intros Hr%respond_done_exec. split.
  - destruct (respond_match name show_here text) eqn:Hs; [|reflexivity].
    apply respond_show_exec in Hs.
    rewrite (show_excludes_remove _ Hs) in Hr. discriminate.
  - destruct (respond_match name add_match_here text) eqn:Ha; [|reflexivity].
    apply respond_add_exec in Ha as (todo' & Ha).
    rewrite (add_excludes_remove _ _ Ha) in Hr. discriminate.
Qed.

Lemma receive_show (name : string) (h : host) (text : string) (w : world) (u : unit) :
  respond_match name show_here text = Some u ->
  receive name h text w = exec_actions (show_handler h) w.
Proof.
  intros Hs. destruct (show_match_alone _ _ _ Hs) as [Ha Hr].
  unfold receive, respond_show, respond_add, respond_done.
  now rewrite Hs, Ha, Hr.
Qed.

Lemma receive_add (name : string) (h : host) (text todo : string) (w : world) :
  respond_match name add_match_here text = Some todo ->
  receive name h text w = add_handler h todo w.
Proof.
  intros Ha. destruct (add_match_alone _ _ _ Ha) as [Hs Hr].
  unfold receive, respond_show, respond_add, respond_done.
  now rewrite Hs, Ha, Hr.
Qed.

Lemma receive_done (name : string) (h : host) (text id : string) (w : world) :
  respond_match name Regex.match_here text = Some id ->
  receive name h text w = exec_actions (remove_handler id) w.
Proof.
  intros Hr. destruct (done_match_alone _ _ _ Hr) as [Hs Ha].
  unfold receive, respond_show, respond_add, respond_done.
  now rewrite Hs, Ha, Hr.
Qed.



Lemma eq_i_refl (s : string) : Regex.eq_i s s = true.
Proof.
  induction s as [|c s IH]; cbn [Regex.eq_i]; [reflexivity|].
  rewrite IH, andb_true_r. unfold Regex.char_eq_i. apply Ascii.eqb_refl.
Qed.

(** After a plain name and one space, the pattern is tried first on
    what follows. *)
Lemma respond_match_plain {A : Type} (name : string) (f : string -> option A)
    (d : ascii) (rest : string) (x : A) :
  plain_start name = true -> is_space d = false ->
  f (String d rest) = Some x ->
  respond_match name f (name ++ " " ++ String d rest) = Some x.
Proof.
  intros Hname Hd Hf. destruct name as [|c n]; [discriminate|].
  cbn [plain_start] in Hname. apply andb_true_iff in Hname as [Hc Hat].
  apply negb_true_iff in Hc, Hat.
  unfold respond_match, addressed.
  set (text := String c n ++ " " ++ String d rest).
  assert (H1 : spaces text = [text])
    by (subst text; cbn [String.append spaces]; now rewrite Hc).
  rewrite H1. cbn [flat_map]. rewrite app_nil_r.
  assert (H2 : optional is_at text = [text])
    by (subst text; cbn [String.append optional]; now rewrite Hat).
  rewrite H2. cbn [flat_map]. rewrite app_nil_r.
  assert (H3 : literal_i (String c n) text = [" " ++ String d rest]).
  { subst text. unfold literal_i.
    now rewrite (match_literal_i_complete _ _ _ (eq_i_refl (String c n))). }
  rewrite H3. cbn [flat_map]. rewrite app_nil_r.
  assert (H4 : optional is_colon_or_comma (" " ++ String d rest)
               = [" " ++ String d rest]) by reflexivity.
  rewrite H4. cbn [flat_map]. rewrite app_nil_r.
  assert (H5 : spaces (" " ++ String d rest)
               = [String d rest; " " ++ String d rest]).
  { change (" " ++ String d rest) with (String " " (String d rest)).
    cbn [spaces]. change (is_space " ") with true. now rewrite Hd. }
  rewrite H5. cbn [first_match]. now rewrite Hf.
Qed.

Lemma hex_or_hyphen_not_space (c : ascii) :
  Regex.hex_or_hyphen c = true -> is_space c = false.
Proof. by_cases_on_char c. Qed.

(** The three commands as one types them.  For a robot whose name
    starts plainly, the name, a space and "show my todo list" runs the
    list handler; the name, a space, "add ", an item without line
    terminator and " to my todo list" runs the add handler on that very
    item, whatever else the item contains; and the name, a space, an
    identifier of the 8-4-4-4-12 shape and " is done" runs the remove
    handler on that identifier.  Each runs that handler alone. *)
Theorem typed_commands_run (name : string) (h : host) (w : world) :
  plain_start name = true ->
  receive name h (name ++ " " ++ "show my todo list") w
  = exec_actions (show_handler h) w
  /\ (forall todo : string,
        all_chars dot todo = true ->
        receive name h (name ++ " " ++ "add " ++ todo ++ " to my todo list") w
        = add_handler h todo w)
  /\ (forall id : string,
        Regex.is_uuid_shape id = true ->
        receive name h (name ++ " " ++ id ++ " is done") w
        = exec_actions (remove_handler id) w).
Proof.
  intros Hname. split; [|split].
  - apply (receive_show name h _ w tt).
    now apply (respond_match_plain name show_here "s" "how my todo list" tt).
  - intros todo Hall. apply receive_add.
    apply (respond_match_plain name add_match_here "a"
             ("dd " ++ todo ++ " to my todo list") todo Hname eq_refl).
    apply add_match_here_iff. exists "add ", " to my todo list". auto.
  - intros id Hid.
    destruct (fits_template_chars _ _ Hid) as [Hlen Hall].
    destruct id as [|d id]; [discriminate|]. apply receive_done.
    apply (respond_match_plain name Regex.match_here d (id ++ " is done")
             (String d id) Hname).
    + apply hex_or_hyphen_not_space. cbn [all_chars] in Hall.
      now apply andb_true_iff in Hall as [Hd _].
    + apply match_here_iff. exists " is done". repeat split; auto.
      eapply all_chars_impl; [|exact Hall].
      intros c. now rewrite id_char_hex_or_hyphen.
Qed.

Lemma typed_commands_run_witness :
  receive "hubot" Demo.sound_host ("hubot" ++ " " ++ "show my todo list")
    (init Demo.store)
  = exec_actions (show_handler Demo.sound_host) (init Demo.store)
  /\ receive "hubot" Demo.sound_host
       ("hubot" ++ " " ++ "add " ++ "add milk to my todo list twice"
        ++ " to my todo list") (init Demo.store)
     = add_handler Demo.sound_host "add milk to my todo list twice"
         (init Demo.store).
Proof.
  destruct (typed_commands_run "hubot" Demo.sound_host (init Demo.store))
    as (Hshow & Hadd & _); [reflexivity|].
  split; [exact Hshow | now apply Hadd].
Defined.

(** What the framework dispatches to the remove listener, the script's
    pattern matches by itself, with the same identifier; and a text the
    script's pattern does not match is not dispatched.  So a fact
    proved whenever the pattern matches covers every dispatch. *)
Theorem dispatched_is_matched (name text : string) :
  (forall id : string,
     respond_match name Regex.match_here text = Some id ->
     Regex.exec text = Some id
     /\ respond_done name text = remove_handler id
     /\ respond_remove text = remove_handler id)
  /\ (respond_remove text = [] -> respond_done name text = []).
Proof.
  split.
  - intros id Hm. pose proof (respond_done_exec _ _ _ Hm) as Hexec.
    unfold respond_done, respond_remove. now rewrite Hm, Hexec.
  - unfold respond_done, respond_remove.
    destruct (respond_match name Regex.match_here text) as [id|] eqn:Hm;
      [|reflexivity].
    rewrite (respond_done_exec _ _ _ Hm). discriminate.
Qed.

End DispatchFacts.

(** ** The check that the storage directory exists *)

Module BootFacts.
Import Fs Todos Boot LoopFacts.

#[local] Arguments Path.join : simpl never.

Lemma mkdirSync_DATA_DIR (sf : sync_call -> option errno) (fs0 : gmap string node) :
  mkdirSync sf fs0 DATA_DIR =
  match sf (MkdirSync DATA_DIR) with
  | Some e => inl (Errno e)
  | None =>
      match fs0 !! DATA_DIR with
      | Some _ => inl EEXIST
      | None => inr (<[DATA_DIR := Dir]> fs0)
      end
  end.
Proof. reflexivity. Qed.

Lemma statSync_DATA_DIR (sf : sync_call -> option errno) (fs0 : gmap string node) :
  statSync sf fs0 DATA_DIR =
  match sf (StatSync DATA_DIR) with
  | Some e => Some (Errno e)
  | None =>
      match fs0 !! DATA_DIR with
      | Some _ => None
      | None => Some (Errno ENOENT)
      end
  end.
Proof. reflexivity. Qed.

(** When the check succeeds, either something already had the name
    [DATA_DIR] and the file system is untouched, or nothing had and the
    file system is the former one with the new, empty directory.  No
    existing entry is ever removed or replaced. *)
Theorem bootstrap_outcome (sf : sync_call -> option errno)
    (fs0 fs1 : gmap string node) :
  bootstrap sf fs0 = inr fs1 ->
  (is_Some (fs0 !! DATA_DIR) /\ fs1 = fs0)
  \/ (fs0 !! DATA_DIR = None /\ fs1 = <[DATA_DIR := Dir]> fs0).
Proof.
  unfold bootstrap. rewrite statSync_DATA_DIR, mkdirSync_DATA_DIR.
  destruct (sf (StatSync DATA_DIR)) as [e|], (sf (MkdirSync DATA_DIR)) as [e'|],
    (fs0 !! DATA_DIR) as [n|] eqn:Hdir; intros [= <-]; eauto.
Qed.

Lemma bootstrap_outcome_witness :
  bootstrap no_sync_fault Demo.store = inr Demo.store
  /\ ((is_Some (Demo.store !! DATA_DIR) /\ Demo.store = Demo.store)
      \/ (Demo.store !! DATA_DIR = None
          /\ Demo.store = <[DATA_DIR := Dir]> Demo.store)).
Proof.
  split; [reflexivity|].
  apply (bootstrap_outcome no_sync_fault Demo.store Demo.store). reflexivity.
Defined.

(** When the check fails.  The [catch] takes every error of [statSync]
    for "missing", so with something named [DATA_DIR] the script fails
    to load exactly when the host fails [statSync] (the [mkdirSync]
    that follows cannot succeed); with nothing of that name, exactly
    when the host fails [mkdirSync]. *)
Theorem bootstrap_fails_iff (sf : sync_call -> option errno)
    (fs0 : gmap string node) :
  (exists e : exn, bootstrap sf fs0 = inl e) <->
  match fs0 !! DATA_DIR with
  | Some _ => sf (StatSync DATA_DIR) <> None
  | None => sf (MkdirSync DATA_DIR) <> None
  end.
Proof.
  unfold bootstrap. rewrite statSync_DATA_DIR, mkdirSync_DATA_DIR.
  destruct (sf (StatSync DATA_DIR)) as [e|], (sf (MkdirSync DATA_DIR)) as [e'|],
    (fs0 !! DATA_DIR) as [n|]; split;
    try (intros [x Hx]; discriminate);
    try (intros H; now destruct H);
    try (intros _; eauto); try discriminate.
Qed.

(** Checking twice is checking once, on a host that does not fail
    [statSync]. *)
Theorem bootstrap_idempotent (sf : sync_call -> option errno)
    (fs0 fs1 : gmap string node) :
  sf (StatSync DATA_DIR) = None ->
  bootstrap sf fs0 = inr fs1 -> bootstrap sf fs1 = inr fs1.
Proof.
  intros Hsf. unfold bootstrap.
  rewrite !statSync_DATA_DIR, mkdirSync_DATA_DIR, Hsf.
  destruct (fs0 !! DATA_DIR) as [n|] eqn:Hdir.
  - intros [= <-]. now rewrite Hdir.
  - destruct (sf (MkdirSync DATA_DIR)); [discriminate|].
    intros [= <-]. now rewrite lookup_insert_eq.
Qed.

Lemma bootstrap_idempotent_witness :
  bootstrap no_sync_fault Demo.store = inr Demo.store
  /\ bootstrap no_sync_fault (<[DATA_DIR := Dir]> ∅) = inr (<[DATA_DIR := Dir]> ∅).
Proof.
  split; [reflexivity|].
  apply (bootstrap_idempotent no_sync_fault ∅); reflexivity.
Defined.

End BootFacts.

(** ** Commands one after another *)

Module ComposeFacts.
Import Fs Todos Boot LoopFacts ShowFacts CommandFacts.

#[local] Arguments Path.join : simpl never.

Lemma strip_prefix_inv (pre s r : string) :
  Path.strip_prefix pre s = Some r -> s = pre ++ r.
Proof.
  revert s. induction pre as [|a pre IH]; intros s; cbn [Path.strip_prefix].
  - now intros [= ->].
  - destruct s as [|c s]; [discriminate|].
    destruct (Ascii.eqb_spec a c) as [->|]; [|discriminate].
    intros H%IH. cbn [String.append]. now rewrite H.
Qed.

Lemma child_name_inv (dir p name : string) :
  Path.child_name dir p = Some name -> p = dir ++ "/" ++ name.
Proof.
  unfold Path.child_name.
  destruct (Path.strip_prefix (dir ++ "/") p) as [n|] eqn:H; [|discriminate].
  destruct (String.eqb n "" || has_char "/" n); [discriminate|].
  intros [= <-]. apply strip_prefix_inv in H.
  now rewrite RegexFacts.string_app_assoc in H.
Qed.

(** An entry of the storage directory is in what [fs.readdir] returns. *)
Lemma readdir_lists (h : host) (fs0 : gmap string node) (name : string) (n : node) :
  fault h (SReaddir DATA_DIR) = None -> fs0 !! DATA_DIR = Some Dir ->
  Path.plain_name name -> fs0 !! ("todos/" ++ name) = Some n ->
  fst (readdir h fs0 DATA_DIR) = None /\ name ∈ snd (readdir h fs0 DATA_DIR).
Proof.
  intros Hfault Hdir Hname Hn. unfold readdir. rewrite Hfault, Hdir.
  cbn [fst snd]. split; [reflexivity|].
  apply list_elem_of_omap. exists ("todos/" ++ name). split.
  - change (("todos/" ++ name) ∈ (map_to_list fs0).*1).
    apply list_elem_of_fmap. exists ("todos/" ++ name, n).
    split; [reflexivity|]. now apply elem_of_map_to_list.
  - now apply PathFacts.child_name_entry.
Qed.

(** What [fs.readdir] returns names something that is there. *)
Lemma readdir_listed (h : host) (fs0 : gmap string node) (name : string) :
  name ∈ snd (readdir h fs0 DATA_DIR) -> is_Some (fs0 !! ("todos/" ++ name)).
Proof.
  unfold readdir. destruct (fault h (SReaddir DATA_DIR));
    [intros H; now apply elem_of_nil in H|].
  destruct (fs0 !! DATA_DIR) as [[d|]|]; cbn [snd];
    try (intros H; now apply elem_of_nil in H).
  intros (p & Hp & Hc)%list_elem_of_omap.
  apply child_name_inv in Hc as ->.
  change (DATA_DIR ++ "/" ++ name) with ("todos/" ++ name) in Hp.
  change (("todos/" ++ name) ∈ (map_to_list fs0).*1) in Hp.
  apply list_elem_of_fmap in Hp as ([q n] & Hq & Hin). cbn in Hq. subst q.
  apply elem_of_map_to_list in Hin. eauto.
Qed.

(** Reads that complete, few or many, leave the file system alone. *)
Lemma reads_partial (h : host) (fs0 : gmap string node) (d : nat)
    (sched : list nat) :
  forall (files : list string) (rs : list string) (iss : list syscall),
    exists (files' : list string) (rs' : list string),
      run h sched {| fs := fs0; pending := map (read_request h) files;
                     replies := rs; issued := iss; drawn := d |}
      = {| fs := fs0; pending := map (read_request h) files';
           replies := rs'; issued := iss; drawn := d |}.
Proof.
  induction sched as [|c sched IH]; intros files rs iss.
  - now exists files, rs.
  - rewrite run_cons. unfold step. cbn [pending fs replies issued drawn].
    rewrite map_lookup.
    destruct (files !! _) as [x|]; cbn [fmap option_fmap option_map].
    + rewrite complete_read, map_delete.
      cbn [exec_actions fold_left exec_action pending fs replies issued drawn].
      apply IH.
    + apply IH.
Qed.

(** The list command from any state with nothing pending. *)
Lemma run_show_from (h : host) (w0 : world) (files : list string)
    (sched : list nat) :
  pending w0 = [] -> readdir h (fs w0) DATA_DIR = (None, files) ->
  files <> [] -> List.length files < List.length sched ->
  exists rs : list string,
    run h sched (exec_actions (show_handler h) w0)
    = {| fs := fs w0; pending := []; replies := replies w0 ++ rs;
         issued := (issued w0 ++ [SReaddir DATA_DIR])
                   ++ map (fun file => SReadFile (Path.join [DATA_DIR; file])) files;
         drawn := drawn w0 |}
    /\ rs ≡ₚ map (read_reply h (fs w0)) files.
Proof.
  intros Hq Hdir Hne Hlen.
  destruct sched as [|c sched]; [cbn in Hlen; lia|].
  rewrite run_cons, step_show by exact Hq. rewrite Hdir.
  destruct files as [|file files]; [congruence|].
  destruct (drain_reads h (fs w0) (drawn w0) sched (file :: files) (replies w0)
              ((issued w0 ++ [SReaddir DATA_DIR])
               ++ map (fun f => SReadFile (Path.join [DATA_DIR; f])) (file :: files)))
    as (rs & Hrun & Hperm).
  { cbn in Hlen |- *. lia. }
  exists rs. split; [exact Hrun | exact Hperm].
Qed.

Lemma show_lists_file_from (h : host) (w0 : world) (name : string)
    (data : list Byte.byte) (sched : list nat) :
  pending w0 = [] ->
  fault h (SReaddir DATA_DIR) = None -> fs w0 !! DATA_DIR = Some Dir ->
  Path.plain_name name -> fs w0 !! ("todos/" ++ name) = Some (File data) ->
  fault h (SReadFile ("todos/" ++ name)) = None ->
  List.length (snd (readdir h (fs w0) DATA_DIR)) < List.length sched ->
  (name ++ ": " ++ Buffer_toString h data)
  ∈ replies (run h sched (exec_actions (show_handler h) w0)).
Proof.
  intros Hq Hfault Hdir Hname Hfile Hread Hlen.
  destruct (readdir_lists h (fs w0) name _ Hfault Hdir Hname Hfile) as [Hok Hin].
  destruct (readdir h (fs w0) DATA_DIR) as [err files] eqn:Hls.
  cbn [fst snd] in Hok, Hin, Hlen. subst err.
  assert (Hne : files <> []) by (intros ->; now apply elem_of_nil in Hin).
  destruct (run_show_from h w0 files sched Hq Hls Hne Hlen) as (rs & -> & Hperm).
  cbn [replies]. apply elem_of_app. right. rewrite Hperm.
  assert (Hreply : read_reply h (fs w0) name = name ++ ": " ++ Buffer_toString h data).
  { unfold read_reply, read_fails, item_line, readFile.
    change (Path.join [DATA_DIR; name]) with (Path.join ["todos"; name]).
    rewrite (PathFacts.join_entry name Hname). now rewrite Hread, Hfile. }
  rewrite <- Hreply.
  apply list_elem_of_In, in_map, list_elem_of_In, Hin.
Qed.

Lemma writeFile_ok_parent (h : host) (fs0 : gmap string node) (p data enc : string) :
  fst (writeFile h fs0 p data enc) = None -> is_dir fs0 (Path.dirname p) = true.
Proof.
  unfold writeFile. destruct (fault h (SWriteFile p data enc)).
  - destruct (written_before_fault h (SWriteFile p data enc));
      [destruct (can_open fs0 p)|]; discriminate.
  - destruct (fs0 !! p) as [[d|]|]; try discriminate;
      now destruct (is_dir fs0 (Path.dirname p)).
Qed.

Lemma unlink_gone (h : host) (fs0 : gmap string node) (p : string) :
  fs0 !! p = None ->
  fst (unlink h fs0 p) <> None /\ snd (unlink h fs0 p) = fs0.
Proof.
  intros Hp. unfold unlink. destruct (fault h (SUnlink p)); [now split|].
  now rewrite Hp.
Qed.

(** The list command never changes the file system and makes no call
    but [readdir] of the storage directory and [readFile] of paths
    joined from it, at every point of every schedule. *)
Theorem show_read_only (h : host) (fs0 : gmap string node) (sched : list nat) :
  let w := run h sched (exec_actions (show_handler h) (init fs0)) in
  fs w = fs0
  /\ forall c : syscall,
       c ∈ issued w ->
       c = SReaddir DATA_DIR
       \/ exists file : string, c = SReadFile (Path.join [DATA_DIR; file]).
Proof.
  intros w. subst w. destruct sched as [|c0 sched].
  - split; [reflexivity|]. intros c Hc. cbn in Hc.
    apply list_elem_of_singleton in Hc. now left.
  - rewrite run_cons, step_show by reflexivity. cbn [init fs replies issued drawn].
    destruct (readdir h fs0 DATA_DIR) as [[e|] [|file files]];
      try (rewrite run_idle by reflexivity; split; [reflexivity|];
           intros c Hc; cbn in Hc; apply list_elem_of_singleton in Hc; now left).
    destruct (reads_partial h fs0 0 sched (file :: files) []
                (([] ++ [SReaddir DATA_DIR])
                 ++ map (fun f => SReadFile (Path.join [DATA_DIR; f])) (file :: files)))
      as (files' & rs' & ->).
    split; [reflexivity|]. intros c Hc. cbn [issued] in Hc.
    apply elem_of_app in Hc as [Hc|Hc].
    + cbn in Hc. apply list_elem_of_singleton in Hc. now left.
    + apply list_elem_of_In, in_map_iff in Hc as (f & <- & _). right. now exists f.
Qed.

(** The add command touches one path only, the one it writes, and
    removes nothing: at every point of every schedule every other path
    is as before and every name in use is still in use. *)
Theorem add_confined (h : host) (fs0 : gmap string node) (todo : string)
    (sched : list nat) :
  let p := Path.join [DATA_DIR; uuid_v4 h 0] in
  let w := run h sched (add_handler h todo (init fs0)) in
  (forall q : string, q <> p -> fs w !! q = fs0 !! q)
  /\ (forall q : string, is_Some (fs0 !! q) -> is_Some (fs w !! q))
  /\ issued w = [SWriteFile p todo "ascii"].
Proof.
  intros p w. subst w. destruct sched as [|c sched].
  - cbn. auto.
  - rewrite run_add by reflexivity. cbn [init fs issued drawn app]. fold p.
    assert (Hins : forall x : node,
               (forall q : string, q <> p -> <[p := x]> fs0 !! q = fs0 !! q)
               /\ (forall q : string,
                     is_Some (fs0 !! q) -> is_Some (<[p := x]> fs0 !! q))).
    { intros x. split.
      - intros q Hq. apply lookup_insert_ne. congruence.
      - intros q Hq. destruct (decide (q = p)) as [->|Hne].
        + rewrite lookup_insert_eq. eauto.
        + rewrite lookup_insert_ne by congruence. exact Hq. }
    destruct (fst (writeFile h fs0 p todo "ascii")) as [e|] eqn:Hres.
    + destruct (writeFile_failed _ _ _ _ _ _ Hres) as [->|[n ->]]; [auto|].
      destruct (Hins (File (take n (Buffer_from todo "ascii")))). auto.
    + rewrite (writeFile_ok _ _ _ _ _ Hres).
      destruct (Hins (File (Buffer_from todo "ascii"))). auto.
Qed.

(** The list command shows every regular file of the storage directory
    that can be read: its reply is the name of the file, ": ", and the
    text of its bytes. *)
Theorem show_lists_every_file (h : host) (fs0 : gmap string node)
    (name : string) (data : list Byte.byte) (sched : list nat) :
  fault h (SReaddir DATA_DIR) = None -> fs0 !! DATA_DIR = Some Dir ->
  Path.plain_name name -> fs0 !! ("todos/" ++ name) = Some (File data) ->
  fault h (SReadFile ("todos/" ++ name)) = None ->
  List.length (snd (readdir h fs0 DATA_DIR)) < List.length sched ->
  (name ++ ": " ++ Buffer_toString h data)
  ∈ replies (run h sched (exec_actions (show_handler h) (init fs0))).
Proof.
  intros Hfault Hdir Hname Hfile Hread Hlen.
  now apply (show_lists_file_from h (init fs0) name data sched).
Qed.

Lemma show_lists_every_file_witness :
  "0b0e7a57-4f6e-4c0a-9d52-0d4f1f0c9a11: buy milk"
  ∈ replies (run Demo.sound_host [2; 1; 0; 0]
               (exec_actions (show_handler Demo.sound_host) (init Demo.store))).
Proof.
  apply (show_lists_every_file Demo.sound_host Demo.store
           "0b0e7a57-4f6e-4c0a-9d52-0d4f1f0c9a11"
           (list_byte_of_string "buy milk") [2; 1; 0; 0]).
  - reflexivity.
  - reflexivity.
  - repeat split; discriminate.
  - reflexivity.
  - reflexivity.
  - vm_compute. lia.
Defined.

(** Add, then list.  After an add that succeeded, the list command
    shows the new item: the identifier is among the entries read, and
    one reply is the identifier, ": ", and the text of the bytes
    written, which is the item itself whenever the host reads those
    bytes back as the item. *)
Theorem add_then_show (h : host) (fs0 : gmap string node) (todo : string)
    (sched1 sched2 : list nat) :
  sched1 <> [] ->
  Regex.is_uuid_shape (uuid_v4 h 0) = true ->
  fst (writeFile h fs0 ("todos/" ++ uuid_v4 h 0) todo "ascii") = None ->
  fault h (SReaddir DATA_DIR) = None ->
  fault h (SReadFile ("todos/" ++ uuid_v4 h 0)) = None ->
  let ID := uuid_v4 h 0 in
  let w1 := run h sched1 (add_handler h todo (init fs0)) in
  List.length (snd (readdir h (fs w1) DATA_DIR)) < List.length sched2 ->
  let w2 := run h sched2 (exec_actions (show_handler h) w1) in
  ID ∈ snd (readdir h (fs w1) DATA_DIR)
  /\ (ID ++ ": " ++ Buffer_toString h (list_byte_of_string todo)) ∈ replies w2
  /\ (Buffer_toString h (list_byte_of_string todo) = todo ->
      (ID ++ ": " ++ todo) ∈ replies w2).
Proof.
  intros Hs1 Hshape Hwrite Hrd Hrf ID w1. subst ID.
  set (ID := uuid_v4 h 0) in *.
  destruct sched1 as [|c1 sched1]; [congruence|].
  pose proof (uuid_shape_plain ID Hshape) as Hplain.
  pose proof (PathFacts.join_entry ID Hplain) as Hjoin.
  change (Path.join [DATA_DIR; ID] = "todos/" ++ ID) in Hjoin.
  subst w1. rewrite run_add by reflexivity.
  cbn [init fs pending replies issued drawn app]. fold ID. rewrite Hjoin.
  rewrite (writeFile_ok _ _ _ _ _ Hwrite).
  set (fs1 := <["todos/" ++ ID := File (Buffer_from todo "ascii")]> fs0).
  set (w1 := {| fs := fs1; pending := []; replies := _; issued := _; drawn := 1 |}).
  intros Hlen. set (w2 := run h sched2 (exec_actions (show_handler h) w1)).
  assert (Hdir : fs1 !! DATA_DIR = Some Dir).
  { pose proof (writeFile_ok_parent _ _ _ _ _ Hwrite) as Hparent.
    rewrite (PathFacts.dirname_entry ID Hplain) in Hparent.
    unfold is_dir in Hparent. cbn [String.eqb Ascii.eqb Bool.eqb orb] in Hparent.
    subst fs1. rewrite lookup_insert_ne by discriminate.
    change DATA_DIR with "todos".
    now destruct (fs0 !! "todos") as [[d|]|]. }
  assert (Hfile : fs1 !! ("todos/" ++ ID) = Some (File (list_byte_of_string todo)))
    by (subst fs1; now rewrite lookup_insert_eq).
  split; [exact (proj2 (readdir_lists h fs1 ID _ Hrd Hdir Hplain Hfile))|].
  assert (Hline : (ID ++ ": " ++ Buffer_toString h (list_byte_of_string todo))
                  ∈ replies w2)
    by (now apply (show_lists_file_from h w1 ID _ sched2)).
  split; [exact Hline|]. intros Hback. now rewrite Hback in Hline.
Qed.

Lemma add_then_show_witness :
  "110ec58a-a0f2-4ac4-8393-c866d813b8d1: feed the cat"
  ∈ replies (run Demo.sound_host [3; 0; 1; 0; 0]
               (exec_actions (show_handler Demo.sound_host)
                  (run Demo.sound_host [0]
                     (add_handler Demo.sound_host "feed the cat" (init Demo.store))))).
Proof.
  destruct (add_then_show Demo.sound_host Demo.store "feed the cat" [0]
              [3; 0; 1; 0; 0]) as (_ & _ & Hline).
  - discriminate.
  - reflexivity.
  - reflexivity.
  - reflexivity.
  - reflexivity.
  - vm_compute. lia.
  - apply Hline. reflexivity.
Defined.

(** Remove, then list.  After a removal that succeeded, the identifier
    is not among the entries of the storage directory any more. *)
Theorem removed_not_listed (h : host) (fs0 : gmap string node)
    (text id : string) (sched : list nat) :
  Regex.exec text = Some id -> sched <> [] ->
  fst (unlink h fs0 ("todos/" ++ id)) = None ->
  let w := run h sched (exec_actions (respond_remove text) (init fs0)) in
  replies w = ["OK! Removed " ++ id]
  /\ id ∉ snd (readdir h (fs w) DATA_DIR).
Proof.
  intros Hexec Hsched Hok w. destruct sched as [|c sched]; [congruence|].
  destruct (matched_id_plain text id Hexec) as [Hplain _].
  pose proof (PathFacts.join_entry id Hplain) as Hjoin.
  change (Path.join [DATA_DIR; id] = "todos/" ++ id) in Hjoin.
  subst w. rewrite (respond_remove_match text id Hexec).
  rewrite run_remove by reflexivity. cbn [init fs replies app]. rewrite Hjoin, Hok.
  split; [reflexivity|]. rewrite (unlink_ok _ _ _ Hok).
  intros [n Hn]%readdir_listed. rewrite lookup_delete_eq in Hn. discriminate.
Qed.

Lemma removed_not_listed_witness :
  "7c9e6679-7425-40de-944b-e07fc1f90ae7"
  ∉ snd (readdir Demo.sound_host
           (fs (run Demo.sound_host [0]
                  (exec_actions
                     (respond_remove "hubot 7c9e6679-7425-40de-944b-e07fc1f90ae7 is done")
                     (init Demo.store))))
           DATA_DIR).
Proof.
  apply (removed_not_listed Demo.sound_host Demo.store
           "hubot 7c9e6679-7425-40de-944b-e07fc1f90ae7 is done"
           "7c9e6679-7425-40de-944b-e07fc1f90ae7" [0]).
  - reflexivity.
  - discriminate.
  - reflexivity.
Defined.

(** Removing twice.  When a removal succeeded, the same removal again
    replies "Couldn't find <id>" on every host and changes nothing
    more. *)
Theorem remove_twice (h : host) (fs0 : gmap string node) (id : string)
    (sched1 sched2 : list nat) :
  sched1 <> [] -> sched2 <> [] ->
  fst (unlink h fs0 (Path.join [DATA_DIR; id])) = None ->
  let w1 := run h sched1 (exec_actions (remove_handler id) (init fs0)) in
  let w2 := run h sched2 (exec_actions (remove_handler id) w1) in
  replies w2 = ["OK! Removed " ++ id; "Couldn't find " ++ id]
  /\ fs w2 = fs w1
  /\ fs w1 = delete (Path.join [DATA_DIR; id]) fs0.
Proof.
  intros Hs1 Hs2 Hok w1 w2.
  destruct sched1 as [|c1 sched1]; [congruence|].
  destruct sched2 as [|c2 sched2]; [congruence|].
  subst w2 w1. rewrite (run_remove h (init fs0)) by reflexivity.
  rewrite run_remove by reflexivity.
  cbn [init fs pending replies issued drawn app].
  set (p := Path.join [DATA_DIR; id]) in *.
  rewrite Hok, (unlink_ok _ _ _ Hok).
  destruct (unlink_gone h (delete p fs0) p (lookup_delete_eq fs0 p)) as [Herr Hsame].
  rewrite Hsame. destruct (fst (unlink h (delete p fs0) p)); [auto | congruence].
Qed.

Lemma remove_twice_witness :
  replies (run Demo.sound_host [0]
             (exec_actions (remove_handler "7c9e6679-7425-40de-944b-e07fc1f90ae7")
                (run Demo.sound_host [0]
                   (exec_actions
                      (remove_handler "7c9e6679-7425-40de-944b-e07fc1f90ae7")
                      (init Demo.store)))))
  = ["OK! Removed 7c9e6679-7425-40de-944b-e07fc1f90ae7";
     "Couldn't find 7c9e6679-7425-40de-944b-e07fc1f90ae7"].
Proof.
  apply (remove_twice Demo.sound_host Demo.store
           "7c9e6679-7425-40de-944b-e07fc1f90ae7" [0] [0]).
  - discriminate.
  - discriminate.
  - reflexivity.
Defined.

(** A first start.  With nothing named [DATA_DIR] and a host that lets
    [mkdirSync] through, the check makes the directory, whether
    [statSync] failed for "missing" or for another reason, and the list
    command then replies "The list is empty!". *)
Theorem fresh_start_lists_empty (sf : sync_call -> option errno) (h : host)
    (fs0 : gmap string node) (sched : list nat) :
  fs0 !! DATA_DIR = None ->
  (forall p n, fs0 !! p = Some n -> Path.child_name DATA_DIR p = None) ->
  sf (MkdirSync DATA_DIR) = None ->
  fault h (SReaddir DATA_DIR) = None -> sched <> [] ->
  bootstrap sf fs0 = inr (<[DATA_DIR := Dir]> fs0)
  /\ run h sched (exec_actions (show_handler h) (init (<[DATA_DIR := Dir]> fs0)))
     = {| fs := <[DATA_DIR := Dir]> fs0; pending := [];
          replies := ["The list is empty!"];
          issued := [SReaddir DATA_DIR]; drawn := 0 |}.
Proof.
  intros Hmiss Hnone Hmk Hrd Hsched. split.
  - unfold bootstrap.
    rewrite BootFacts.statSync_DATA_DIR, BootFacts.mkdirSync_DATA_DIR, Hmiss, Hmk.
    now destruct (sf (StatSync DATA_DIR)).
  - destruct sched as [|c sched]; [congruence|].
    rewrite run_cons, step_show by reflexivity. cbn [init fs replies issued drawn].
    rewrite (readdir_no_entries h (<[DATA_DIR := Dir]> fs0) Hrd).
    + now rewrite run_idle.
    + apply lookup_insert_eq.
    + intros p n Hp. destruct (decide (p = DATA_DIR)) as [->|Hne].
      * reflexivity.
      * rewrite lookup_insert_ne in Hp by congruence. exact (Hnone p n Hp).
Qed.

Lemma fresh_start_lists_empty_witness :
  bootstrap no_sync_fault
    (<["notes.txt" := File (list_byte_of_string "keep")]> ∅)
  = inr (<[DATA_DIR := Dir]>
           (<["notes.txt" := File (list_byte_of_string "keep")]> ∅))
  /\ replies
       (run Demo.sound_host [0]
          (exec_actions (show_handler Demo.sound_host)
             (init (<[DATA_DIR := Dir]>
                      (<["notes.txt" := File (list_byte_of_string "keep")]> ∅)))))
     = ["The list is empty!"].
Proof.
  destruct (fresh_start_lists_empty no_sync_fault Demo.sound_host
              (<["notes.txt" := File (list_byte_of_string "keep")]> ∅) [0])
    as [Hboot Hrun].
  - reflexivity.
  - intros p n Hp. apply lookup_insert_Some in Hp as [[<- _]|[_ Hp]].
    + reflexivity.
    + rewrite lookup_empty in Hp. discriminate.
  - reflexivity.
  - reflexivity.
  - discriminate.
  - split; [exact Hboot|]. now rewrite Hrun.
Defined.

(** The check looks for the name and not for a directory.  When
    [DATA_DIR] names a regular file the check succeeds and makes
    nothing; the list command then replies
    "Oh no... I couldn't look for todos..." and the add command
    "Oh no... I couldn't write the todo file...", on every host, and the
    file system stays as it is. *)
Theorem bootstrap_accepts_file (sf : sync_call -> option errno) (h : host)
    (fs0 : gmap string node) (data : list Byte.byte) (todo : string)
    (sched : list nat) :
  fs0 !! DATA_DIR = Some (File data) ->
  sf (StatSync DATA_DIR) = None ->
  Regex.is_uuid_shape (uuid_v4 h 0) = true -> sched <> [] ->
  bootstrap sf fs0 = inr fs0
  /\ replies (run h sched (exec_actions (show_handler h) (init fs0)))
     = ["Oh no... I couldn't look for todos..."]
  /\ replies (run h sched (add_handler h todo (init fs0)))
     = ["Oh no... I couldn't write the todo file..."]
  /\ fs (run h sched (add_handler h todo (init fs0))) = fs0.
Proof.
  intros Hfile Hsf Hshape Hsched. destruct sched as [|c sched]; [congruence|].
  split; [|split].
  - unfold bootstrap. now rewrite BootFacts.statSync_DATA_DIR, Hsf, Hfile.
  - rewrite run_cons, step_show by reflexivity. cbn [init fs replies issued drawn].
    assert (Herr : exists e files, readdir h fs0 DATA_DIR = (Some e, files)).
    { unfold readdir. destruct (fault h (SReaddir DATA_DIR)); [eauto|].
      rewrite Hfile. eauto. }
    destruct Herr as (e & files & ->). now rewrite run_idle.
  - pose proof (uuid_shape_plain _ Hshape) as Hplain.
    pose proof (PathFacts.join_entry _ Hplain) as Hjoin.
    change (Path.join [DATA_DIR; uuid_v4 h 0] = "todos/" ++ uuid_v4 h 0) in Hjoin.
    rewrite run_add by reflexivity. cbn [init fs replies issued drawn app].
    rewrite Hjoin.
    assert (Hclosed : can_open fs0 ("todos/" ++ uuid_v4 h 0) = false).
    { unfold can_open. rewrite (PathFacts.dirname_entry _ Hplain). unfold is_dir.
      change (fs0 !! "todos") with (fs0 !! DATA_DIR). rewrite Hfile.
      cbn [String.eqb Ascii.eqb Bool.eqb orb].
      now destruct (fs0 !! ("todos/" ++ uuid_v4 h 0)) as [[d|]|]. }
    destruct (writeFile_closed h fs0 _ todo "ascii" Hclosed) as [Herr ->].
    destruct (fst (writeFile h fs0 ("todos/" ++ uuid_v4 h 0) todo "ascii"));
      [auto | congruence].
Qed.

Lemma bootstrap_accepts_file_witness :
  bootstrap no_sync_fault
    (<[DATA_DIR := File (list_byte_of_string "not a directory")]> ∅)
  = inr (<[DATA_DIR := File (list_byte_of_string "not a directory")]> ∅)
  /\ replies
       (run Demo.sound_host [0]
          (add_handler Demo.sound_host "buy milk"
             (init (<[DATA_DIR := File (list_byte_of_string "not a directory")]> ∅))))
     = ["Oh no... I couldn't write the todo file..."].
Proof.
  destruct (bootstrap_accepts_file no_sync_fault Demo.sound_host
              (<[DATA_DIR := File (list_byte_of_string "not a directory")]> ∅)
              (list_byte_of_string "not a directory") "buy milk" [0])
    as (Hboot & _ & Hadd & _).
  - reflexivity.
  - reflexivity.
  - reflexivity.
  - discriminate.
  - split; [exact Hboot | exact Hadd].
Defined.

End ComposeFacts.
